(** * Factorio-mod-manager: a shallow embedding of [mods_manager.py]

    The script is modelled function by function.  Pure parts (version and
    timestamp comparison, the ordering and filtering of releases) are plain
    functions; everything that touches the disk, the network, standard
    output or the [glob] dictionary runs in a small state-and-exception
    monad over a [World]. *)

From Stdlib Require Import ZArith NArith List Sorted Permutation Lia Bool.
From Equations Require Import Equations.
From stdpp Require Import gmap strings list.

Local Open Scope string_scope.
Local Open Scope N_scope.

(** ** Python tuples of integers and their ordering *)

(** [tuple.__lt__] and friends: lexicographic, a strict prefix is smaller. *)
Fixpoint tuple_compare (a b : list N) : comparison :=
  match a, b with
  | [], [] => Eq
  | [], _ :: _ => Lt
  | _ :: _, [] => Gt
  | x :: a', y :: b' =>
      match N.compare x y with
      | Eq => tuple_compare a' b'
      | c => c
      end
  end.

Definition tuple_eqb (a b : list N) : bool :=
  match tuple_compare a b with Eq => true | _ => false end.

Definition tuple_leb (a b : list N) : bool :=
  match tuple_compare a b with Gt => false | _ => true end.

(** ** [packaging.version.Version]

    Factorio versions are dotted digit strings ([\d+\.\d+] for the host, the
    same shape for a mod's [factorio_version]), so a parsed version carries
    a release segment only: epoch 0, no pre, post, dev or local part. *)

Record Version := mkVersion { release : list N }.

#[global] Instance Version_eq_dec : EqDecision Version.
Proof. solve_decision. Defined.

(** [itertools.dropwhile(lambda x: x == 0, ...)] *)
Fixpoint dropwhile_zero (l : list N) : list N :=
  match l with
  | 0 :: t => dropwhile_zero t
  | _ => l
  end.

(** [_cmpkey]: the release with its trailing zeros removed; the other
    components of the key are the same constants for every release-only
    version. *)
Definition _cmpkey (v : Version) : list N :=
  rev (dropwhile_zero (rev (release v))).

(** [Version.__eq__] and [Version.__le__] compare the keys. *)
Definition version_eqb (a b : Version) : bool := tuple_eqb (_cmpkey a) (_cmpkey b).
Definition version_leb (a b : Version) : bool := tuple_leb (_cmpkey a) (_cmpkey b).

(** ** [datetime]

    [datetime.strptime(s, '%Y-%m-%dT%H:%M:%S.%fZ')] gives a naive datetime;
    two of them compare field by field, most significant first. *)

Record datetime := mkDatetime {
  year : N; month : N; day : N;
  hour : N; minute : N; second : N; microsecond : N
}.

#[global] Instance datetime_eq_dec : EqDecision datetime.
Proof. solve_decision. Defined.

Definition datetime_key (d : datetime) : list N :=
  [year d; month d; day d; hour d; minute d; second d; microsecond d].

Definition datetime_leb (a b : datetime) : bool :=
  tuple_leb (datetime_key a) (datetime_key b).

Definition datetime_ltb (a b : datetime) : bool := negb (datetime_leb b a).

(** ** Releases and manifest entries *)

(** One element of the portal's ['releases'] array, with
    [info_json.factorio_version] and [released_at] already parsed. *)
Record Release := mkRelease {
  file_name : string;
  download_url : string;
  sha1 : string;
  version : string;
  info_json_factorio_version : Version;
  released_at : datetime
}.

#[global] Instance Release_eq_dec : EqDecision Release.
Proof. solve_decision. Defined.

(** One element of the ['mods'] array of [mod-list.json]. *)
Record ModEntry := mkMod { name : string; enabled : bool }.

#[global] Instance ModEntry_eq_dec : EqDecision ModEntry.
Proof. solve_decision. Defined.

(** The dictionary built by [get_mod_infos]. *)
Record ModInfos := mkInfos {
  mi_name : string;
  mi_enabled : bool;
  releases : list Release;
  same_version_releases : list Release
}.

(** ** Ordering and filtering of releases ([get_mod_infos], lines 169-174) *)

(** [sorted(..., key=released_at, reverse=True)]: descending by key and
    stable, so releases with equal timestamps keep their input order.
    [insert_desc x l] puts [x], which precedes all of [l] in the input,
    in front of the first element that is not strictly more recent. *)
Fixpoint insert_desc (x : Release) (l : list Release) : list Release :=
  match l with
  | [] => [x]
  | y :: t =>
      if datetime_leb (released_at y) (released_at x)
      then x :: y :: t
      else y :: insert_desc x t
  end.

Definition sorted_releases (l : list Release) : list Release :=
  foldr insert_desc [] l.

(** The two list comprehensions, for a host version that was detected. *)
Definition filtered_releases (should_downgrade : bool) (target : Version)
    (sorted : list Release) : list Release :=
  if should_downgrade
  then List.filter (fun r => version_leb (info_json_factorio_version r) target) sorted
  else List.filter (fun r => version_eqb (info_json_factorio_version r) target) sorted.

(** The release the callers use: [same_version_releases[0]], guarded by
    [len(same_version_releases) == 0]. *)
Definition selected_release (filtered : list Release) : option Release :=
  head filtered.

Definition resolve (should_downgrade : bool) (target : Version)
    (rels : list Release) : option Release :=
  selected_release (filtered_releases should_downgrade target (sorted_releases rels)).

(** ** External collaborators *)

Definition bytes := list Byte.byte.

(** [hashlib.sha1()]: an incremental hasher. *)
Class Hashlib := {
  hasher : Type;
  hashlib_sha1 : hasher;
  hasher_update : hasher -> bytes -> hasher;
  hexdigest : hasher -> string
}.

(** What [requests.get] returns for [/api/mods/<name>]: the status code
    and, in the JSON body, the ['releases'] array when the key is there. *)
Record ApiResponse := mkApi {
  status_code : Z;
  json_releases : option (list Release)
}.

(** What [requests.get(..., stream=True)] returns for a download URL:
    the two headers the script reads and the chunks [iter_content] yields;
    [r.content] is their concatenation. *)
Record DownloadResponse := mkDownload {
  content_type : option string;
  content_length : option Z;
  chunks : list bytes
}.

Definition content (r : DownloadResponse) : bytes := concat (chunks r).

(** [config.json], every key optional. *)
Record Config := mkConfig {
  cfg_should_reload : option bool;
  cfg_service_name : option string;
  cfg_factorio_path : option string;
  cfg_username : option string;
  cfg_token : option string;
  cfg_verbose : option bool;
  cfg_should_downgrade : option bool
}.

(** The outcome of the three [git] calls of [check_mod_manager_update]. *)
Inductive GitStatus :=
| GitUpToDate
| GitUpdateAvailable
| GitCalledProcessError
| GitNotInstalled.

(** Everything the script reads and never writes. *)
Record Env := mkEnv {
  api_mods : string -> ApiResponse;
  mods_portal : string -> option string -> option string -> DownloadResponse;
  config_json : option Config;
  abspath : string -> string;
  path_exists : string -> bool;
  path_isdir : string -> bool;
  path_isfile : string -> bool;
  binary_version : string -> option Version;
  git_status : GitStatus
}.

(** The namespace built by [parser.parse_args()]. *)
Record Args := mkArgs {
  arg_factorio_path : option string;
  arg_username : option string;
  arg_token : option string;
  arg_dry_run : bool;
  mod_name_to_install : option string;
  should_update : bool;
  enabled_only : bool;
  list_mods : bool;
  remove_mod_name : option string;
  list_enable_mods : option (list string);
  list_disable_mods : option (list string);
  arg_should_downgrade : bool;
  arg_should_reload : bool;
  arg_service_name : option string;
  arg_verbose : bool;
  disable_mod_manager_update : bool
}.

(** ** The [glob] dictionary *)

Record Glob := mkGlob {
  verbose : bool;
  dry_run : bool;
  factorio_path : option string;      (* [None] also stands for the [False] sentinel *)
  factorio_version : option Version;
  mods_folder_path : option string;
  mods_list_path : option string;
  username : option string;
  token : option string;
  should_reload : bool;
  service_name : option string;
  has_to_reload : bool;               (* [None] as [false], [True] as [true] *)
  should_downgrade : bool
}.

Definition initial_glob : Glob :=
  mkGlob false false None None None None None None false None false false.

(** ** What the script prints *)

Inductive Msg :=
| MsgAutoDetected (v : Version)
| MsgParsing
| MsgWriting
| MsgDryWrite (mods : list ModEntry)
| MsgDryDelete (file_path : string)
| MsgRemovingFile (file_path : string)
| MsgWarnMissing (file_path : string)
| MsgNoMods
| MsgCurrentlyInstalled
| MsgModLine (n : string) (e : bool)
| MsgGettingInfos (n : string)
| MsgErrorGetting (n : string)
| MsgNoRelease (n : string)
| MsgIdentical (file_path : string)
| MsgStartingUpdate
| MsgDisabledSkipping (n : string)
| MsgNoMatchSkipping (n : string)
| MsgRemovingOld (file_path : string)
| MsgDownloading (n : string)
| MsgInstalling (n : string)
| MsgNotFound (n : string)
| MsgNoMatchNotInstalled (n : string)
| MsgInstalled (n v : string) (fv : Version)
| MsgRemovingMod (n : string)
| MsgNoReleasesFound (n : string)
| MsgDryDownload (url : string)
| MsgNotZip
| MsgWrongCredentials
| MsgAborting
| MsgBlank
| MsgChangingState (enable : bool) (names : list string)
| MsgLoadingConfig
| MsgNoConfigFile
| MsgPathNotSet
| MsgNoModsFolder (p : string)
| MsgNoModsList (p : string)
| MsgCredentialsNotSet
| MsgUpdateAvailable
| MsgGitError
| MsgHelp
| MsgFailing
| MsgNeedRestart
| MsgDryReload (should : bool)
| MsgReloading (service : option string)
| MsgReloadDisabled
| MsgFinished.

(** ** The world the script acts on *)

Inductive Request :=
| GetModInfos (n : string)
| GetArtifact (url : string) (user tok : option string).

(** The mods folder holds regular files, keyed by their name inside the
    folder ([os.path.join(glob['mods_folder_path'], name)]); the parsed
    ['mods'] array of [mod-list.json] is kept apart. *)
Record World := mkWorld {
  glob : Glob;
  mods_folder : gmap string bytes;
  mod_list_json : list ModEntry;
  stdout : list Msg;
  http_log : list Request;
  restarted : list (option string)
}.

Definition with_glob (g : Glob) (w : World) : World :=
  mkWorld g (mods_folder w) (mod_list_json w) (stdout w) (http_log w) (restarted w).
Definition with_mods_folder (m : gmap string bytes) (w : World) : World :=
  mkWorld (glob w) m (mod_list_json w) (stdout w) (http_log w) (restarted w).
Definition with_mod_list_json (l : list ModEntry) (w : World) : World :=
  mkWorld (glob w) (mods_folder w) l (stdout w) (http_log w) (restarted w).
Definition with_stdout (o : list Msg) (w : World) : World :=
  mkWorld (glob w) (mods_folder w) (mod_list_json w) o (http_log w) (restarted w).
Definition with_http_log (h : list Request) (w : World) : World :=
  mkWorld (glob w) (mods_folder w) (mod_list_json w) (stdout w) h (restarted w).
Definition with_restarted (r : list (option string)) (w : World) : World :=
  mkWorld (glob w) (mods_folder w) (mod_list_json w) (stdout w) (http_log w) r.

Definition glob_has_to_reload (g : Glob) : Glob :=
  mkGlob (verbose g) (dry_run g) (factorio_path g) (factorio_version g)
         (mods_folder_path g) (mods_list_path g) (username g) (token g)
         (should_reload g) (service_name g) true (should_downgrade g).

(** ** Control flow: normal return, [exit(n)], uncaught exception *)

Inductive exn := KeyError | TypeError | IndexError | ZeroDivisionError | OSError.

Inductive result (A : Type) :=
| Return (a : A)
| SystemExit (code : Z)
| Uncaught (e : exn).
Arguments Return {A} a.
Arguments SystemExit {A} code.
Arguments Uncaught {A} e.

Definition M (A : Type) : Type := World -> result A * World.

Definition ret {A} (a : A) : M A := fun w => (Return a, w).

Definition bind {A B} (m : M A) (k : A -> M B) : M B :=
  fun w =>
    match m w with
    | (Return a, w') => k a w'
    | (SystemExit c, w') => (SystemExit c, w')
    | (Uncaught e, w') => (Uncaught e, w')
    end.

Notation "'let*' x ':=' m 'in' k" := (bind m (fun x => k))
  (at level 10, x name, m at level 100, k at level 200).
Notation "m >> k" := (bind m (fun _ => k))
  (at level 90, right associativity).

Definition raise {A} (e : exn) : M A := fun w => (Uncaught e, w).
Definition exit {A} (code : Z) : M A := fun w => (SystemExit code, w).

Definition get_glob : M Glob := fun w => (Return (glob w), w).
Definition put_glob (g : Glob) : M unit := fun w => (Return tt, with_glob g w).
Definition get_world : M World := fun w => (Return w, w).

Definition print (m : Msg) : M unit :=
  fun w => (Return tt, with_stdout (stdout w ++ [m]) w).

(** [for x in l: body] where [continue] is an early return of the body. *)
Fixpoint for_each {A} (l : list A) (body : A -> M unit) : M unit :=
  match l with
  | [] => ret tt
  | x :: t => body x >> for_each t body
  end.

(** The final world and the outcome of a computation. *)
Definition outcome {A} (m : M A) (w : World) : result A := fst (m w).
Definition after {A} (m : M A) (w : World) : World := snd (m w).

(** ** The script *)

Definition BLOCKSIZE : nat := N.to_nat 65536.

(** Python truthiness of an optional string and [a or b]. *)
Definition truthy (s : option string) : bool :=
  match s with
  | Some s => negb (String.eqb s "")
  | None => false
  end.

Definition py_or (a : option string) (b : string) : string :=
  match a with
  | Some s => if String.eqb s "" then b else s
  | None => b
  end.

(** [os.path.join] of a directory without a trailing separator and a
    relative name. *)
Definition path_join (a b : string) : string := a ++ "/" ++ b.

Section Script.

Context `{Hashlib}.
Variable env : Env.

(** [requests.get] on the mod's API page and on a download URL with the
    credentials as parameters; each request is logged. *)
Definition requests_get_api (n : string) : M ApiResponse :=
  fun w => (Return (api_mods env n),
            with_http_log (http_log w ++ [GetModInfos n]) w).

Definition requests_get_download (url : string) (user tok : option string)
    : M DownloadResponse :=
  fun w => (Return (mods_portal env url user tok),
            with_http_log (http_log w ++ [GetArtifact url user tok]) w).

(** [debug]: prints when [glob['verbose'] is True]. *)
Definition debug (m : Msg) : M unit :=
  let* g := get_glob in
  if verbose g then print m else ret tt.

(** The loop of [get_file_sha1]: [buf] is the block just read, [rest]
    what the file still holds behind the read position, [blocksize] the
    argument of [afile.read]. *)
Equations? sha1_loop (blocksize : nat) (h : hasher) (buf rest : bytes) : hasher
  by wf (length buf + length rest)%nat lt :=
  sha1_loop blocksize h [] rest := h;
  sha1_loop blocksize h (b :: buf) rest :=
    sha1_loop blocksize (hasher_update h (b :: buf))
              (take blocksize rest) (drop blocksize rest).
Proof.
  rewrite <- (take_drop blocksize rest) at 3.
  rewrite length_app. simpl. lia.
Qed.

Definition get_file_sha1 (file : bytes) : string :=
  hexdigest (sha1_loop BLOCKSIZE hashlib_sha1 (take BLOCKSIZE file) (drop BLOCKSIZE file)).

(** [find_version]: the regular expression over the binary's output is
    left to [binary_version]. *)
Definition find_version : M (option Version) :=
  let* g := get_glob in
  match binary_version env (path_join (default "" (factorio_path g)) "bin/x64/factorio") with
  | Some main_version => debug (MsgAutoDetected main_version) >> ret (Some main_version)
  | None => ret None
  end.

Definition read_mods_list (remove_base : bool) : M (list ModEntry) :=
  debug MsgParsing >>
  let* w := get_world in
  let mods_list_dict := mod_list_json w in
  if remove_base then
    match mods_list_dict with
    | [] => raise IndexError
    | _ :: t => ret t
    end
  else ret mods_list_dict.

Definition write_mods_list (mods_list : list ModEntry) : M unit :=
  debug MsgWriting >>
  let* g := get_glob in
  if dry_run g then print (MsgDryWrite mods_list)
  else fun w => (Return tt, with_mod_list_json mods_list w).

Definition remove_file (file_path : string) : M unit :=
  let* w := get_world in
  if bool_decide (is_Some (mods_folder w !! file_path)) then
    if dry_run (glob w) then print (MsgDryDelete file_path)
    else
      debug (MsgRemovingFile file_path) >>
      fun w => (Return tt, with_mods_folder (delete file_path (mods_folder w)) w)
  else debug (MsgWarnMissing file_path).

Definition display_mods_list (mods_list : list ModEntry) : M unit :=
  if (length mods_list =? 0)%nat then print MsgNoMods
  else
    print MsgCurrentlyInstalled >>
    for_each mods_list (fun mod_ => print (MsgModLine (name mod_) (enabled mod_))).

(** The comprehension of line 172 or 174 against [glob['factorio_version']].
    When no version was detected, [==] against [None] is [False] for every
    release and [<=] raises on the first one. *)
Definition filter_against (should_downgrade : bool) (target : option Version)
    (sorted : list Release) : M (list Release) :=
  match target with
  | Some v => ret (filtered_releases should_downgrade v sorted)
  | None =>
      if should_downgrade then
        match sorted with
        | [] => ret []
        | _ :: _ => raise TypeError
        end
      else ret []
  end.

Definition get_mod_infos (mod_ : ModEntry) : M (option ModInfos) :=
  debug (MsgGettingInfos (name mod_)) >>
  let* r := requests_get_api (name mod_) in
  if negb (status_code r =? 200)%Z then
    print (MsgErrorGetting (name mod_)) >> ret None
  else
    match json_releases r with
    | None =>
        (* ['releases' not in r.json()] holds, so [r.json()['releases']]
           is evaluated *)
        raise KeyError
    | Some rels =>
        (* the first conjunct is false: lines 166-167 are skipped *)
        let sorted := sorted_releases rels in
        let* g := get_glob in
        let* filtered := filter_against (should_downgrade g) (factorio_version g) sorted in
        ret (Some (mkInfos (name mod_) (enabled mod_) sorted filtered))
    end.

Definition check_file_and_sha (file_path : string) (sha : string) : M bool :=
  let* w := get_world in
  match mods_folder w !! file_path with
  | Some file =>
      if String.eqb sha (get_file_sha1 file)
      then print (MsgIdentical file_path) >> ret true
      else ret false
  | None => ret false
  end.

Definition set_has_to_reload : M unit :=
  let* g := get_glob in put_glob (glob_has_to_reload g).

(** [with open(file_path, 'wb') as fd]: the file is created or truncated,
    then written chunk by chunk.  The progress bar is not modelled, its
    division is: [int(50 * dl / total_length)]. *)
Definition open_wb (file_path : string) : M unit :=
  fun w => (Return tt, with_mods_folder (<[file_path := []]> (mods_folder w)) w).

Definition fd_write (file_path : string) (data : bytes) : M unit :=
  fun w => (Return tt,
            with_mods_folder
              (<[file_path := (default [] (mods_folder w !! file_path) ++ data)%list]>
                 (mods_folder w)) w).

Definition download_mod (file_path download_url : string) : M unit :=
  let* g := get_glob in
  if dry_run g then print (MsgDryDownload download_url)
  else
    let* r := requests_get_download download_url (username g) (token g) in
    if negb (bool_decide (content_type r = Some "application/zip")) then
      print MsgNotZip >> print MsgWrongCredentials >> print MsgAborting >> exit 1
    else
      open_wb file_path >>
      match content_length r with
      | None => fd_write file_path (content r)
      | Some total_length =>
          for_each (chunks r) (fun chunk =>
            fd_write file_path chunk >>
            if (total_length =? 0)%Z then raise ZeroDivisionError else ret tt)
      end >>
      print MsgBlank.

(** The body of the loop of [update_mods]. *)
Definition update_mod (enabled_only : bool) (mod_ : ModEntry) : M unit :=
  let* mod_infos := get_mod_infos mod_ in
  match mod_infos with
  | None =>
      (* [mod_infos['enabled']] or [mod_infos['same_version_releases']]
         on [None] *)
      raise TypeError
  | Some mod_infos =>
      if enabled_only && negb (mi_enabled mod_infos) then
        debug (MsgDisabledSkipping (mi_name mod_infos))
      else
        match same_version_releases mod_infos with
        | [] => print (MsgNoMatchSkipping (name mod_))
        | selected :: _ =>
            let delete_list :=
              List.filter (fun release =>
                             negb (String.eqb (file_name release) (file_name selected)))
                          (releases mod_infos) in
            for_each delete_list (fun release =>
              debug (MsgRemovingOld (file_name release)) >>
              remove_file (file_name release)) >>
            let file_path := file_name selected in
            let* same := check_file_and_sha file_path (sha1 selected) in
            if same then ret tt
            else
              debug (MsgDownloading (mi_name mod_infos)) >>
              download_mod file_path (download_url selected) >>
              set_has_to_reload
        end
  end.

Definition update_mods (enabled_only : bool) : M unit :=
  debug MsgStartingUpdate >>
  let* mods_list := read_mods_list true in
  for_each mods_list (update_mod enabled_only).

Definition install_mod (mod_name : string) : M (option bool) :=
  debug (MsgInstalling mod_name) >>
  let mod_ := mkMod mod_name true in
  let* mod_infos := get_mod_infos mod_ in
  match mod_infos with
  | None => debug (MsgNotFound mod_name) >> ret None
  | Some mod_infos =>
      match same_version_releases mod_infos with
      | [] => print (MsgNoMatchNotInstalled (name mod_)) >> ret None
      | selected :: _ =>
          let* mods_list := read_mods_list false in
          write_mods_list (mods_list ++ [mod_]) >>
          let file_path := file_name selected in
          let* same := check_file_and_sha file_path (sha1 selected) in
          if same then ret None
          else
            debug (MsgDownloading (mi_name mod_infos)) >>
            download_mod file_path (download_url selected) >>
            print (MsgInstalled mod_name (version selected)
                                (info_json_factorio_version selected)) >>
            set_has_to_reload >>
            ret (Some true)
      end
  end.

Definition remove_mod (mod_name : string) : M (option bool) :=
  debug (MsgRemovingMod mod_name) >>
  let mod_ := mkMod mod_name true in
  let* mod_infos := get_mod_infos mod_ in
  match mod_infos with
  | None => debug (MsgNoReleasesFound mod_name) >> ret (Some false)
  | Some mod_infos =>
      for_each (releases mod_infos) (fun mod_ =>
        debug (MsgRemovingFile (file_name mod_)) >>
        remove_file (file_name mod_)) >>
      let* mods_list := read_mods_list false in
      let new_mods_list :=
        List.filter (fun mod_ => negb (String.eqb mod_name (name mod_))) mods_list in
      write_mods_list new_mods_list >>
      set_has_to_reload >>
      ret None
  end.

Definition update_state_mods (mods_name_list : list string) (should_enable : bool) : M unit :=
  print (MsgChangingState should_enable mods_name_list) >>
  let* mods_list := read_mods_list false in
  let mods_list :=
    map (fun mod_ =>
           if bool_decide (name mod_ ∈ mods_name_list)
           then mkMod (name mod_) should_enable else mod_) mods_list in
  write_mods_list mods_list >>
  set_has_to_reload.

Definition empty_config : Config := mkConfig None None None None None None None.

Definition glob_set_reload (sr : bool) (sn : option string) (g : Glob) : Glob :=
  mkGlob (verbose g) (dry_run g) (factorio_path g) (factorio_version g)
         (mods_folder_path g) (mods_list_path g) (username g) (token g)
         sr sn (has_to_reload g) (should_downgrade g).

Definition glob_set_factorio_path (p : option string) (g : Glob) : Glob :=
  mkGlob (verbose g) (dry_run g) p (factorio_version g)
         (mods_folder_path g) (mods_list_path g) (username g) (token g)
         (should_reload g) (service_name g) (has_to_reload g) (should_downgrade g).

Definition glob_set_mods_folder_path (p : string) (g : Glob) : Glob :=
  mkGlob (verbose g) (dry_run g) (factorio_path g) (factorio_version g)
         (Some p) (mods_list_path g) (username g) (token g)
         (should_reload g) (service_name g) (has_to_reload g) (should_downgrade g).

Definition glob_set_mods_list_path (p : string) (g : Glob) : Glob :=
  mkGlob (verbose g) (dry_run g) (factorio_path g) (factorio_version g)
         (mods_folder_path g) (Some p) (username g) (token g)
         (should_reload g) (service_name g) (has_to_reload g) (should_downgrade g).

Definition glob_set_credentials (u t : string) (g : Glob) : Glob :=
  mkGlob (verbose g) (dry_run g) (factorio_path g) (factorio_version g)
         (mods_folder_path g) (mods_list_path g) (Some u) (Some t)
         (should_reload g) (service_name g) (has_to_reload g) (should_downgrade g).

Definition glob_set_modes (v d : bool) (g : Glob) : Glob :=
  mkGlob v d (factorio_path g) (factorio_version g)
         (mods_folder_path g) (mods_list_path g) (username g) (token g)
         (should_reload g) (service_name g) (has_to_reload g) (should_downgrade g).

Definition glob_set_version (fv : option Version) (sd : bool) (g : Glob) : Glob :=
  mkGlob (verbose g) (dry_run g) (factorio_path g) fv
         (mods_folder_path g) (mods_list_path g) (username g) (token g)
         (should_reload g) (service_name g) (has_to_reload g) sd.

Definition modify_glob (f : Glob -> Glob) : M unit :=
  let* g := get_glob in put_glob (f g).

Definition load_config (args : Args) : M bool :=
  debug MsgLoadingConfig >>
  let* config :=
    match config_json env with
    | Some config => ret config
    | None => print MsgNoConfigFile >> ret empty_config
    end in
  let reload := if arg_should_reload args then true
                else default false (cfg_should_reload config) in
  let service := if truthy (arg_service_name args) then arg_service_name args
                 else cfg_service_name config in
  modify_glob (glob_set_reload reload service) >>
  if reload && bool_decide (service = None) then
    exit 2 (* [parser.error] *)
  else
    let path := if truthy (arg_factorio_path args)
                then Some (abspath env (default "" (arg_factorio_path args)))
                else cfg_factorio_path config in
    modify_glob (glob_set_factorio_path path) >>
    match path with
    | None => print MsgPathNotSet >> ret false
    | Some path =>
        let folder := path_join path "mods" in
        modify_glob (glob_set_mods_folder_path folder) >>
        if negb (path_exists env folder) && negb (path_isdir env folder) then
          print (MsgNoModsFolder folder) >> ret false
        else
          let list_path := path_join folder "mod-list.json" in
          modify_glob (glob_set_mods_list_path list_path) >>
          if negb (path_exists env list_path) && negb (path_isfile env list_path) then
            print (MsgNoModsList list_path) >> ret false
          else
            let user := py_or (arg_username args) (default "" (cfg_username config)) in
            let tok := py_or (arg_token args) (default "" (cfg_token config)) in
            modify_glob (glob_set_credentials user tok) >>
            if (should_update args || bool_decide (mod_name_to_install args <> None))
               && (String.eqb user "" || String.eqb user "") then
              print MsgCredentialsNotSet >> ret false
            else
              modify_glob (glob_set_modes
                             (arg_verbose args || default false (cfg_verbose config))
                             (arg_dry_run args)) >>
              let* fv := find_version in
              modify_glob (glob_set_version fv
                             (arg_should_downgrade args
                              || default false (cfg_should_downgrade config))) >>
              ret true
    end.

Definition check_mod_manager_update : M unit :=
  match git_status env with
  | GitUpToDate => ret tt
  | GitUpdateAvailable => print MsgUpdateAvailable
  | GitCalledProcessError => print MsgGitError
  | GitNotInstalled => raise OSError
  end.

Definition os_system_restart : M unit :=
  fun w => (Return tt, with_restarted (restarted w ++ [service_name (glob w)]) w).

Definition when (b : bool) (m : M unit) : M unit := if b then m else ret tt.

(** The end of [main], lines 466-480.  A normal return is the [return] of
    the dry-run branch. *)
Definition reload_and_finish : M unit :=
  let* g := get_glob in
  if has_to_reload g then
    print MsgNeedRestart >>
    if dry_run g then print (MsgDryReload (should_reload g))
    else
      (if should_reload g
       then print (MsgReloading (service_name g)) >> os_system_restart
       else print MsgReloadDisabled) >>
      print MsgFinished >> exit 0
  else print MsgFinished >> exit 0.

(** [main], given [len(sys.argv)] and the parsed arguments;
    [sys.exit(main())] turns a normal return into exit status 0. *)
Definition main (argc : nat) (args : Args) : M unit :=
  if (argc =? 1)%nat then print MsgHelp >> exit 0
  else
    let* ok := load_config args in
    if negb ok then print MsgFailing >> exit 1
    else
      when (negb (disable_mod_manager_update args)) check_mod_manager_update >>
      match list_enable_mods args with
      | Some (n :: l) => update_state_mods (n :: l) true >> print MsgBlank
      | _ => ret tt
      end >>
      match list_disable_mods args with
      | Some (n :: l) => update_state_mods (n :: l) false >> print MsgBlank
      | _ => ret tt
      end >>
      when (list_mods args)
        (let* mods_list := read_mods_list true in
         display_mods_list mods_list >> exit 0) >>
      when (should_update args) (update_mods (enabled_only args) >> print MsgBlank) >>
      when (truthy (mod_name_to_install args))
        (install_mod (default "" (mod_name_to_install args)) >> print MsgBlank) >>
      when (truthy (remove_mod_name args))
        (remove_mod (default "" (remove_mod_name args)) >> print MsgBlank) >>
      reload_and_finish.

End Script.

(** ** Auxiliary notions used in the statements *)

(** The order of a list sorted by [sorted_releases]. *)
Definition more_recent_or_same (a b : Release) : Prop :=
  datetime_leb (released_at b) (released_at a) = true.

(** The mods folder after deleting every file of [names]. *)
Definition remove_all (names : list string) (m : gmap string bytes) : gmap string bytes :=
  foldl (fun m n => delete n m) m names.

(** The test of [check_file_and_sha], read off the disk. *)
Definition file_is_current `{Hashlib} (w : World) (file_path sha : string) : bool :=
  match mods_folder w !! file_path with
  | Some file => String.eqb sha (get_file_sha1 file)
  | None => false
  end.

(** *** Frames: what a computation leaves alone *)

(** [preserves R m]: from every world, [m] ends, however it ends, in a
    world related to the starting one. *)
Definition preserves {A} (R : World -> World -> Prop) (m : M A) : Prop :=
  forall w, R w (after m w).

(** Only standard output may differ. *)
Definition only_stdout (w w' : World) : Prop :=
  glob w' = glob w /\ mods_folder w' = mods_folder w /\
  mod_list_json w' = mod_list_json w /\ http_log w' = http_log w /\
  restarted w' = restarted w.

(** The disk, the network and the service are untouched. *)
Definition no_io (w w' : World) : Prop :=
  mods_folder w' = mods_folder w /\ mod_list_json w' = mod_list_json w /\
  http_log w' = http_log w /\ restarted w' = restarted w.

Definition is_metadata_request (r : Request) : Prop :=
  match r with GetModInfos _ => True | GetArtifact _ _ _ => False end.

(** In dry-run mode: the mods folder, the manifest and the service are
    untouched, the mode stays on, and the only requests are metadata
    fetches. *)
Definition dry_frame (w w' : World) : Prop :=
  dry_run (glob w) = true ->
  dry_run (glob w') = true /\
  mods_folder w' = mods_folder w /\ mod_list_json w' = mod_list_json w /\
  restarted w' = restarted w /\
  exists l, http_log w' = (http_log w ++ l)%list /\ Forall is_metadata_request l.

(** Only the file [p] of the mods folder may be written; nothing is
    deleted, the manifest, [glob] and the service are untouched. *)
Definition writes_only (p : string) (w w' : World) : Prop :=
  glob w' = glob w /\ mod_list_json w' = mod_list_json w /\
  restarted w' = restarted w /\
  (forall q, q <> p -> mods_folder w' !! q = mods_folder w !! q) /\
  (is_Some (mods_folder w !! p) -> is_Some (mods_folder w' !! p)).

(** The manifest is as before. *)
Definition same_manifest (w w' : World) : Prop := mod_list_json w' = mod_list_json w.

(** The mods folder, the network and the service are untouched (the
    manifest and [glob] may change). *)
Definition manifest_only (w w' : World) : Prop :=
  mods_folder w' = mods_folder w /\ http_log w' = http_log w /\
  restarted w' = restarted w.

(** No service was restarted and a raised restart flag is still raised. *)
Definition run_frame (w w' : World) : Prop :=
  restarted w' = restarted w /\
  (has_to_reload (glob w) = true -> has_to_reload (glob w') = true).

(** At most one restart, of the configured service, and only in a real
    run that asked for it after a change. *)
Definition restarted_at_most_once (w w' : World) : Prop :=
  restarted w' = restarted w \/
  (restarted w' = (restarted w ++ [service_name (glob w')])%list /\
   should_reload (glob w') = true /\ has_to_reload (glob w') = true /\
   dry_run (glob w') = false).

(** Every file of the mods folder is still there. *)
Definition keeps_files (w w' : World) : Prop :=
  forall p, is_Some (mods_folder w !! p) -> is_Some (mods_folder w' !! p).

(** A computation that ends in an exit or an exception, never in a
    normal return. *)
Definition never_returns {A} (m : M A) : Prop :=
  forall w a, outcome m w <> Return a.

(** ** Sample data

    The two releases of the scenario: an older release for host 0.18 and a
    newer one for host 1.0. *)

(** A stand-in for [hashlib] in the examples: the digest is the content
    hashed so far. *)
Definition sample_hashlib : Hashlib :=
  {| hasher := bytes;
     hashlib_sha1 := [];
     hasher_update := fun h buf => (h ++ buf)%list;
     hexdigest := String.string_of_list_byte |}.

Definition T1 : datetime := mkDatetime 2020 1 21 10 0 0 0.
Definition T2 : datetime := mkDatetime 2020 8 14 9 30 0 500.

Definition rel_old : Release :=
  mkRelease "m_1.0.0.zip" "/download/m/1" "aa" "1.0.0" (mkVersion [0; 18]) T1.
Definition rel_new : Release :=
  mkRelease "m_2.0.0.zip" "/download/m/2" "bb" "2.0.0" (mkVersion [1; 0]) T2.

Definition zip_old : bytes := String.list_byte_of_string "aa".
Definition zip_new : bytes := String.list_byte_of_string "bb".

(** The portal knows the mod ["m"], with both releases, and a mod
    ["bare"] whose JSON has no ['releases'] key; any other name is a 404.
    Downloads need a user name and a token. *)
Definition sample_env : Env :=
  mkEnv
    (fun n => if String.eqb n "m" then mkApi 200 (Some [rel_old; rel_new])
              else if String.eqb n "bare" then mkApi 200 None
              else mkApi 404 None)
    (fun url user tok =>
       if truthy user && truthy tok
       then mkDownload (Some "application/zip") None
                       [if String.eqb url "/download/m/2" then zip_new else zip_old]
       else mkDownload (Some "text/html") None [])
    None
    (fun p => p)
    (fun _ => true) (fun _ => true) (fun _ => true)
    (fun _ => Some (mkVersion [1; 0]))
    GitUpToDate.

Definition sample_glob (dry : bool) : Glob :=
  mkGlob false dry (Some "/opt/factorio") (Some (mkVersion [1; 0]))
         (Some "/opt/factorio/mods") (Some "/opt/factorio/mods/mod-list.json")
         (Some "user") (Some "tok") false None false false.

Definition sample_world (dry : bool) (files : gmap string bytes)
    (mods : list ModEntry) : World :=
  mkWorld (sample_glob dry) files mods [] [] [].

Definition base_entry : ModEntry := mkMod "base" true.

(** Only the old release is on disk. *)
Definition files_stale : gmap string bytes := {[ "m_1.0.0.zip" := zip_old ]}.
(** The selected release is on disk and intact, next to the old one. *)
Definition files_current : gmap string bytes :=
  <[ "m_2.0.0.zip" := zip_new ]> files_stale.

(** What [get_mod_infos] builds for the mod ["m"] on a 1.0 host. *)
Definition infos_m : ModInfos := mkInfos "m" true [rel_new; rel_old] [rel_new].

(** [-U -u user] with no token anywhere (there is no [config.json]). *)
Definition args_update_no_token : Args :=
  mkArgs (Some "/opt/factorio") (Some "user") None false None true false false
         None None None false false None false true.

(** [-i m -d] with credentials. *)
Definition args_install_dry : Args :=
  mkArgs (Some "/opt/factorio") (Some "user") (Some "tok") true (Some "m") false
         false false None None None false false None false true.

(** The world a run starts from: [glob] as the module defines it. *)
Definition start_world (files : gmap string bytes) (mods : list ModEntry) : World :=
  mkWorld initial_glob files mods [] [] [].

(** A hasher that records the blocks it is fed. *)
Definition recording_hashlib : Hashlib :=
  {| hasher := list bytes;
     hashlib_sha1 := [];
     hasher_update := fun h buf => (h ++ [buf])%list;
     hexdigest := fun _ => "" |}.

(** A later release of the mod, made for the older host 0.18. *)
Definition rel_backport : Release :=
  mkRelease "m_1.0.1.zip" "/download/m/3" "cc" "1.0.1" (mkVersion [0; 18])
            (mkDatetime 2020 9 1 0 0 0 0).

(** [-l] alone. *)
Definition args_list : Args :=
  mkArgs (Some "/opt/factorio") None None false None false false true
         None None None false false None false true.

(** [-U -u user -t tok], with the self-update check. *)
Definition args_update : Args :=
  mkArgs (Some "/opt/factorio") (Some "user") (Some "tok") false None true false false
         None None None false false None false false.

(** [-U -u user -t tok -r] with no [-s]. *)
Definition args_reload_unnamed : Args :=
  mkArgs (Some "/opt/factorio") (Some "user") (Some "tok") false None true false false
         None None None false true None false true.

(** The sample machine without [git]. *)
Definition sample_env_no_git : Env :=
  mkEnv (api_mods sample_env) (mods_portal sample_env) (config_json sample_env)
        (abspath sample_env) (path_exists sample_env) (path_isdir sample_env)
        (path_isfile sample_env) (binary_version sample_env) GitNotInstalled.

(** The sample mod, disabled in the manifest. *)
Definition mod_m_disabled : ModEntry := mkMod "m" false.

(** [glob] of a machine whose binary did not state its version. *)
Definition glob_no_version : Glob :=
  mkGlob false false (Some "/opt/factorio") None
         (Some "/opt/factorio/mods") (Some "/opt/factorio/mods/mod-list.json")
         (Some "user") (Some "tok") false None false false.

(** The same with [--downgrade]. *)
Definition glob_no_version_downgrade : Glob :=
  mkGlob false false (Some "/opt/factorio") None
         (Some "/opt/factorio/mods") (Some "/opt/factorio/mods/mod-list.json")
         (Some "user") (Some "tok") false None false true.

(** * Properties *)

(** ** The tuple ordering *)

Lemma tuple_compare_refl (a : list N) : tuple_compare a a = Eq.
Proof.
  induction a as [|x a IH]; simpl; [reflexivity|].
  now rewrite N.compare_refl.
Qed.

Lemma tuple_compare_eq (a b : list N) : tuple_compare a b = Eq -> a = b.
Proof.
  revert b; induction a as [|x a IH]; intros [|y b]; simpl; try discriminate; auto.
  destruct (N.compare_spec x y); try discriminate.
  intros E. subst. f_equal. now apply IH.
Qed.

Lemma tuple_compare_antisym (a b : list N) :
  tuple_compare b a = CompOpp (tuple_compare a b).
Proof.
  revert b; induction a as [|x a IH]; intros [|y b]; simpl; auto.
  rewrite (N.compare_antisym x y).
  destruct (N.compare x y); simpl; auto.
Qed.

Lemma tuple_eqb_eq (a b : list N) : tuple_eqb a b = true <-> a = b.
Proof.
  unfold tuple_eqb. split.
  - destruct (tuple_compare a b) eqn:E; try discriminate.
    intros _. now apply tuple_compare_eq.
  - intros ->. now rewrite tuple_compare_refl.
Qed.

Lemma tuple_leb_refl (a : list N) : tuple_leb a a = true.
Proof. unfold tuple_leb. now rewrite tuple_compare_refl. Qed.

Lemma tuple_leb_total (a b : list N) : tuple_leb a b = false -> tuple_leb b a = true.
Proof.
  unfold tuple_leb. rewrite (tuple_compare_antisym a b).
  destruct (tuple_compare a b); simpl; congruence.
Qed.

Lemma tuple_leb_trans (a b c : list N) :
  tuple_leb a b = true -> tuple_leb b c = true -> tuple_leb a c = true.
Proof.
  unfold tuple_leb.
  revert b c; induction a as [|x a IH]; intros [|y b] [|z c]; simpl; auto; try discriminate.
  destruct (N.compare_spec x y), (N.compare_spec y z), (N.compare_spec x z);
    subst; auto; try discriminate; try lia.
  apply IH.
Qed.

(** Two releases of the same length with the same key are the same. *)
Lemma dropwhile_zero_split (l : list N) :
  exists k, l = (repeat 0 k ++ dropwhile_zero l)%list.
Proof.
  induction l as [|x l [k IH]].
  - now exists 0%nat.
  - destruct x as [|p].
    + exists (S k). simpl. now rewrite <- IH.
    + now exists 0%nat.
Qed.

Lemma release_split (v : Version) :
  exists k, release v = (_cmpkey v ++ repeat 0 k)%list.
Proof.
  unfold _cmpkey.
  destruct (dropwhile_zero_split (rev (release v))) as [k E].
  exists k.
  rewrite <- (rev_involutive (release v)) at 1.
  rewrite E at 1. rewrite rev_app_distr. f_equal.
  clear. induction k as [|k IH]; simpl; [reflexivity|].
  rewrite IH. clear. induction k; simpl; congruence.
Qed.

Lemma cmpkey_same_length (a b : Version) :
  _cmpkey a = _cmpkey b ->
  length (release a) = length (release b) ->
  release a = release b.
Proof.
  intros K L.
  destruct (release_split a) as [ka Ea], (release_split b) as [kb Eb].
  rewrite Ea, Eb, K in *. f_equal.
  rewrite !length_app, !repeat_length in L.
  f_equal. lia.
Qed.

Lemma version_eqb_cmpkey (a b : Version) :
  version_eqb a b = true <-> _cmpkey a = _cmpkey b.
Proof. apply tuple_eqb_eq. Qed.

(** ** The descending stable sort *)

Lemma insert_desc_perm (x : Release) (l : list Release) :
  Permutation (x :: l) (insert_desc x l).
Proof.
  induction l as [|y t IH]; simpl; [reflexivity|].
  destruct (datetime_leb _ _); [reflexivity|].
  rewrite perm_swap. now constructor.
Qed.

Lemma sorted_releases_perm (l : list Release) : Permutation l (sorted_releases l).
Proof.
  induction l as [|x l IH]; simpl; [constructor|].
  rewrite <- insert_desc_perm. now constructor.
Qed.

Lemma sorted_releases_In (l : list Release) (r : Release) :
  In r (sorted_releases l) <-> In r l.
Proof.
  split; apply Permutation_in; [symmetry|]; apply sorted_releases_perm.
Qed.

Lemma insert_desc_sorted (x : Release) (l : list Release) :
  StronglySorted more_recent_or_same l ->
  StronglySorted more_recent_or_same (insert_desc x l).
Proof.
  induction 1 as [|y t St IH Hy]; simpl.
  - repeat constructor.
  - destruct (datetime_leb (released_at y) (released_at x)) eqn:E.
    + constructor; [now constructor|].
      constructor; [exact E|].
      rewrite List.Forall_forall in *. intros z Hz.
      unfold more_recent_or_same, datetime_leb in *.
      eapply tuple_leb_trans; [apply Hy, Hz | exact E].
    + constructor; [exact IH|].
      rewrite List.Forall_forall in *. intros z Hz.
      apply (Permutation_in _ (Permutation_sym (insert_desc_perm x t))) in Hz.
      destruct Hz as [<-|Hz]; [|now apply Hy].
      now apply tuple_leb_total.
Qed.

Lemma sorted_releases_sorted (l : list Release) :
  StronglySorted more_recent_or_same (sorted_releases l).
Proof.
  induction l; simpl; [constructor | now apply insert_desc_sorted].
Qed.

Lemma filter_sorted (p : Release -> bool) (l : list Release) :
  StronglySorted more_recent_or_same l ->
  StronglySorted more_recent_or_same (List.filter p l).
Proof.
  induction 1 as [|y t St IH Hy]; simpl; [constructor|].
  destruct (p y); [|exact IH].
  constructor; [exact IH|].
  rewrite List.Forall_forall in *. intros z Hz.
  apply List.filter_In in Hz. now apply Hy.
Qed.

(** Filtering commutes with the stable sort: the head of the filtered
    sorted list is the head of the sorted compatible subset. *)
Lemma filter_insert_desc (p : Release -> bool) (x : Release) (l : list Release) :
  StronglySorted more_recent_or_same l ->
  List.filter p (insert_desc x l) =
  if p x then insert_desc x (List.filter p l) else List.filter p l.
Proof.
  induction 1 as [|y t St IH Hy]; simpl.
  - now destruct (p x).
  - destruct (datetime_leb (released_at y) (released_at x)) eqn:E; simpl.
    + destruct (p x) eqn:Px, (p y) eqn:Py; simpl; rewrite ?E; auto.
      destruct (List.filter p t) as [|z f] eqn:F; simpl; auto.
      assert (Hz : In z t).
      { eapply proj1. apply (List.filter_In p). rewrite F. now left. }
      rewrite List.Forall_forall in Hy. specialize (Hy z Hz).
      unfold more_recent_or_same, datetime_leb in *.
      now rewrite (tuple_leb_trans _ _ _ Hy E).
    + rewrite IH. destruct (p x), (p y); simpl; rewrite ?E; auto.
Qed.

Lemma filter_sorted_releases (p : Release -> bool) (l : list Release) :
  List.filter p (sorted_releases l) = sorted_releases (List.filter p l).
Proof.
  induction l as [|x l IH]; simpl; [reflexivity|].
  rewrite filter_insert_desc by apply sorted_releases_sorted.
  rewrite IH. now destruct (p x).
Qed.

(** Stability: among releases with the same timestamp the input order is
    kept. *)
Lemma sorted_releases_stable (d : datetime) (l : list Release) :
  List.filter (fun r => bool_decide (released_at r = d)) (sorted_releases l) =
  List.filter (fun r => bool_decide (released_at r = d)) l.
Proof.
  induction l as [|x l IH]; simpl; [reflexivity|].
  rewrite filter_insert_desc by apply sorted_releases_sorted.
  rewrite IH. case_bool_decide as E; [|reflexivity].
  destruct (List.filter _ l) as [|z f] eqn:F; simpl; [reflexivity|].
  assert (Hz : released_at z = d).
  { assert (In z (List.filter (fun r => bool_decide (released_at r = d)) l))
      as Hin by (rewrite F; now left).
    apply List.filter_In in Hin. destruct Hin as [_ Hin].
    now apply bool_decide_eq_true in Hin. }
  rewrite Hz, E. unfold datetime_leb. now rewrite tuple_leb_refl.
Qed.

Lemma head_In {A} (l : list A) (x : A) : head l = Some x -> In x l.
Proof. destruct l; simpl; [discriminate|]. intros [= ->]. now left. Qed.

Lemma head_sorted_max (l : list Release) (r r' : Release) :
  StronglySorted more_recent_or_same l ->
  head l = Some r -> In r' l ->
  datetime_ltb (released_at r) (released_at r') = false.
Proof.
  intros S Hh Hin. destruct l as [|y t]; [discriminate|].
  injection Hh as ->. inversion S as [|? ? _ Hall]; subst.
  unfold datetime_ltb. apply negb_false_iff.
  destruct Hin as [<-|Hin].
  - unfold datetime_leb. apply tuple_leb_refl.
  - rewrite List.Forall_forall in Hall. now apply Hall.
Qed.

(** ** The resolver *)

(** C1: with downgrade mode off, a selected release comes from the list
    and its required host version equals the target: the version keys are
    equal, and so the major.minor components are identical; when nothing is
    selected the filtered candidate list is empty. *)
Theorem resolve_exact_match (rels : list Release) (target : Version) :
  match resolve false target rels with
  | Some r =>
      In r rels /\
      version_eqb (info_json_factorio_version r) target = true /\
      _cmpkey (info_json_factorio_version r) = _cmpkey target /\
      (forall major minor major' minor',
          release (info_json_factorio_version r) = [major; minor] ->
          release target = [major'; minor'] ->
          major = major' /\ minor = minor')
  | None => filtered_releases false target (sorted_releases rels) = []
  end.
Proof.
  unfold resolve, selected_release.
  destruct (filtered_releases false target (sorted_releases rels)) as [|r f] eqn:F;
    simpl; [reflexivity|].
  assert (Hin : In r (filtered_releases false target (sorted_releases rels)))
    by (rewrite F; now left).
  apply List.filter_In in Hin. destruct Hin as [Hin Heq].
  apply (proj1 (sorted_releases_In _ _)) in Hin.
  pose proof (proj1 (version_eqb_cmpkey _ _) Heq) as K.
  split; [exact Hin|]. split; [exact Heq|]. split; [exact K|].
  intros a b c d Ea Eb.
  pose proof (cmpkey_same_length _ _ K) as L.
  rewrite Ea, Eb in L. specialize (L eq_refl).
  split; congruence.
Qed.

(** C2: with downgrade mode on, a selected release comes from the list,
    its required host version is at most the target, no release of the
    list that is compatible in that sense has a strictly more recent
    [released_at], and the selection is the head of the descending sort of
    the compatible subset. *)
Theorem resolve_downgrade_most_recent (rels : list Release) (target : Version) :
  let compatible r := version_leb (info_json_factorio_version r) target in
  resolve true target rels = head (sorted_releases (List.filter compatible rels)) /\
  match resolve true target rels with
  | Some r =>
      In r rels /\
      compatible r = true /\
      (forall r', In r' rels -> compatible r' = true ->
                  datetime_ltb (released_at r) (released_at r') = false)
  | None => forall r', In r' rels -> compatible r' = false
  end.
Proof.
  intros compatible. unfold resolve, selected_release, filtered_releases.
  fold compatible. split; [now rewrite filter_sorted_releases|].
  destruct (head (List.filter compatible (sorted_releases rels))) as [r|] eqn:Hh.
  - pose proof (head_In _ _ Hh) as Hin.
    apply List.filter_In in Hin. destruct Hin as [Hin Hc].
    apply (proj1 (sorted_releases_In _ _)) in Hin.
    repeat split; auto.
    intros r' Hin' Hc'.
    eapply head_sorted_max; [|exact Hh|].
    + apply filter_sorted, sorted_releases_sorted.
    + apply List.filter_In. split; [now apply sorted_releases_In|exact Hc'].
  - intros r' Hin'. destruct (compatible r') eqn:Hc; [|reflexivity].
    assert (In r' (List.filter compatible (sorted_releases rels))) as Hf.
    { apply List.filter_In. split; [now apply sorted_releases_In|exact Hc]. }
    destruct (List.filter compatible (sorted_releases rels)); [destruct Hf|discriminate].
Qed.

Lemma sorted_releases_nonempty (rels : list Release) :
  rels <> [] -> sorted_releases rels <> [].
Proof.
  destruct rels as [|r rels]; [congruence|]. intros _ E.
  assert (In r (sorted_releases (r :: rels))) as Hin
    by (apply sorted_releases_In; now left).
  rewrite E in Hin. destruct Hin.
Qed.

(** ** Streaming the file to the hasher *)

Lemma BLOCKSIZE_succ : BLOCKSIZE = S (Nat.pred BLOCKSIZE).
Proof. unfold BLOCKSIZE. lia. Qed.

Section Streaming.

Context `{Hashlib}.

(** What makes a hasher incremental. *)
Hypothesis update_app :
  forall h a b, hasher_update (hasher_update h a) b = hasher_update h (a ++ b)%list.
Hypothesis update_nil : forall h, hasher_update h [] = h.

Lemma sha1_loop_whole (k n : nat) :
  forall (file : bytes) (h : hasher),
    (length file <= n)%nat ->
    sha1_loop (S k) h (take (S k) file) (drop (S k) file) = hasher_update h file.
Proof.
  induction n as [|n IH]; intros file h Hlen.
  - destruct file; [|simpl in Hlen; lia].
    rewrite take_nil, drop_nil. simp sha1_loop. now rewrite update_nil.
  - destruct file as [|b file].
    + rewrite take_nil, drop_nil. simp sha1_loop. now rewrite update_nil.
    + cbn [take drop]. simp sha1_loop.
      rewrite IH by (rewrite length_drop; simpl in Hlen; lia).
      rewrite update_app. cbn [app]. now rewrite take_drop.
Qed.

(** Reading in blocks of 65536 bytes gives the digest of the content. *)
Lemma get_file_sha1_whole (file : bytes) :
  get_file_sha1 file = hexdigest (hasher_update hashlib_sha1 file).
Proof.
  unfold get_file_sha1. rewrite BLOCKSIZE_succ.
  now rewrite (sha1_loop_whole _ (length file)).
Qed.

End Streaming.

(** Five bytes read two at a time reach the hasher as three blocks. *)
Example sha1_loop_blocks :
  let file := String.list_byte_of_string "abcde" in
  @sha1_loop recording_hashlib 2 [] (take 2 file) (drop 2 file) =
  [String.list_byte_of_string "ab"; String.list_byte_of_string "cd";
   String.list_byte_of_string "e"].
Proof. reflexivity. Qed.

(** ** Frames *)

#[local] Instance only_stdout_preorder : PreOrder only_stdout.
Proof.
  split.
  - intros w. repeat split.
  - intros a b c (?&?&?&?&?) (?&?&?&?&?). repeat split; congruence.
Qed.

#[local] Instance no_io_preorder : PreOrder no_io.
Proof.
  split.
  - intros w. repeat split.
  - intros a b c (?&?&?&?) (?&?&?&?). repeat split; congruence.
Qed.

#[local] Instance dry_frame_preorder : PreOrder dry_frame.
Proof.
  split.
  - intros w D. split_and!; auto. exists []. split; [now rewrite app_nil_r|constructor].
  - intros a b c Hab Hbc D.
    destruct (Hab D) as (D'&?&?&?&l&?&?).
    destruct (Hbc D') as (?&?&?&?&l'&?&?).
    repeat split; try congruence.
    exists (l ++ l')%list. split.
    + rewrite app_assoc. congruence.
    + now apply Forall_app.
Qed.

Lemma only_stdout_no_io (w w' : World) : only_stdout w w' -> no_io w w'.
Proof. intros (?&?&?&?&?). repeat split; auto. Qed.

Lemma only_stdout_dry_frame (w w' : World) : only_stdout w w' -> dry_frame w w'.
Proof.
  intros (G&?&?&E&?) D. rewrite G. repeat split; auto.
  exists []. split; [now rewrite app_nil_r|constructor].
Qed.

Lemma preserves_weaken {A} (R R' : World -> World -> Prop) (m : M A) :
  (forall w w', R w w' -> R' w w') -> preserves R m -> preserves R' m.
Proof. intros HR Hm w. apply HR, Hm. Qed.

Section Preserves.

Context (R : World -> World -> Prop) `{!PreOrder R}.

Lemma preserves_ret {A} (a : A) : preserves R (ret a).
Proof. intros w. reflexivity. Qed.

Lemma preserves_raise {A} (e : exn) : preserves R (@raise A e).
Proof. intros w. reflexivity. Qed.

Lemma preserves_exit {A} (c : Z) : preserves R (@exit A c).
Proof. intros w. reflexivity. Qed.

Lemma preserves_get_glob : preserves R get_glob.
Proof. intros w. reflexivity. Qed.

Lemma preserves_get_world : preserves R get_world.
Proof. intros w. reflexivity. Qed.

Lemma preserves_bind {A B} (m : M A) (k : A -> M B) :
  preserves R m -> (forall a, preserves R (k a)) -> preserves R (bind m k).
Proof.
  intros Hm Hk w. specialize (Hm w). unfold after, bind in *.
  destruct (m w) as [[a|c|e] w1]; simpl in *; auto.
  etransitivity; [exact Hm|apply Hk].
Qed.

Lemma preserves_for_each {A} (l : list A) (body : A -> M unit) :
  (forall x, preserves R (body x)) -> preserves R (for_each l body).
Proof.
  intros Hb. induction l as [|x l IH]; simpl.
  - apply preserves_ret.
  - apply preserves_bind; auto.
Qed.

Lemma preserves_when (b : bool) (m : M unit) :
  preserves R m -> preserves R (when b m).
Proof. intros Hm. destruct b; simpl; [exact Hm|apply preserves_ret]. Qed.

End Preserves.

Create HintDb frames.

(** Breaks a computation into its primitives. *)
Ltac frame_step :=
  first
    [ apply preserves_ret; typeclasses eauto
    | apply preserves_raise; typeclasses eauto
    | apply preserves_exit; typeclasses eauto
    | apply preserves_get_glob; typeclasses eauto
    | apply preserves_get_world; typeclasses eauto
    | apply preserves_bind; [typeclasses eauto| |intros ?]
    | apply preserves_for_each; [typeclasses eauto|intros ?]
    | apply preserves_when; [typeclasses eauto|]
    | match goal with
      | |- preserves _ (if ?b then _ else _) => destruct b
      | |- preserves _ (match ?x with _ => _ end) => destruct x
      end ].

Ltac frame := repeat (frame_step; eauto with frames); eauto with frames.

Lemma print_only_stdout (m : Msg) : preserves only_stdout (print m).
Proof. intros w. repeat split. Qed.

Lemma debug_only_stdout (m : Msg) : preserves only_stdout (debug m).
Proof.
  unfold debug. apply preserves_bind; [typeclasses eauto|apply preserves_get_glob; typeclasses eauto|].
  intros g. destruct (verbose g); [apply print_only_stdout|apply preserves_ret; typeclasses eauto].
Qed.

Lemma read_mods_list_only_stdout (b : bool) : preserves only_stdout (read_mods_list b).
Proof.
  intros w. unfold read_mods_list, after, bind.
  pose proof (debug_only_stdout MsgParsing w) as Hd. unfold after in Hd.
  destruct (debug MsgParsing w) as [[[]|c|e] w1]; simpl in *; auto.
  unfold get_world. destruct b; [|exact Hd].
  destruct (mod_list_json w1); exact Hd.
Qed.

Lemma check_file_and_sha_only_stdout `{Hashlib} (p s : string) :
  preserves only_stdout (check_file_and_sha p s).
Proof.
  intros w. unfold check_file_and_sha, after, bind, get_world.
  destruct (mods_folder w !! p) as [file|]; [|reflexivity].
  destruct (String.eqb s (get_file_sha1 file)); [|reflexivity].
  simpl. repeat split.
Qed.

Lemma display_mods_list_only_stdout (l : list ModEntry) :
  preserves only_stdout (display_mods_list l).
Proof.
  unfold display_mods_list.
  destruct (length l =? 0)%nat; [apply print_only_stdout|].
  apply preserves_bind; [typeclasses eauto|apply print_only_stdout|intros _].
  apply preserves_for_each; [typeclasses eauto|]. intros x. apply print_only_stdout.
Qed.

Lemma check_mod_manager_update_only_stdout (env : Env) :
  preserves only_stdout (check_mod_manager_update env).
Proof.
  unfold check_mod_manager_update.
  destruct (git_status env); try apply print_only_stdout;
    intros w; reflexivity.
Qed.


#[export] Hint Resolve print_only_stdout debug_only_stdout read_mods_list_only_stdout
  check_file_and_sha_only_stdout display_mods_list_only_stdout
  check_mod_manager_update_only_stdout : frames.
#[export] Hint Extern 1 (PreOrder _) => typeclasses eauto : frames.
#[export] Hint Extern 4 (preserves no_io _) =>
  (apply (preserves_weaken _ _ _ only_stdout_no_io)) : frames.
#[export] Hint Extern 4 (preserves dry_frame _) =>
  (apply (preserves_weaken _ _ _ only_stdout_dry_frame)) : frames.

(** ** Dry-run mode *)

Ltac open_world w :=
  let v := fresh "v" in let d := fresh "d" in
  destruct w as [[v d ? ? ? ? ? ? ? ? ? ?] ? ? ? ? ?].

(** Symbolic execution: case analysis on the innermost scrutinee that
    blocks evaluation, in the goal or in a hypothesis. *)
Ltac split_inner :=
  match goal with
  | |- context [match ?x with _ => _ end] =>
      lazymatch x with
      | context [match _ with _ => _ end] => fail
      | _ => destruct x eqn:?
      end
  | H : context [match ?x with _ => _ end] |- _ =>
      lazymatch x with
      | context [match _ with _ => _ end] => fail
      | _ => destruct x eqn:?
      end
  end.

Ltac run := repeat (simpl in *; simplify_eq; try split_inner).

Lemma dry_frame_intro (w w' : World) (l : list Request) :
  dry_run (glob w') = dry_run (glob w) ->
  mods_folder w' = mods_folder w -> mod_list_json w' = mod_list_json w ->
  restarted w' = restarted w ->
  http_log w' = (http_log w ++ l)%list -> Forall is_metadata_request l ->
  dry_frame w w'.
Proof. intros E ? ? ? ? ? D. rewrite E. repeat split; eauto. Qed.

Lemma write_mods_list_dry (l : list ModEntry) : preserves dry_frame (write_mods_list l).
Proof.
  intros w D. open_world w. simpl in D. subst.
  unfold after, write_mods_list, debug, bind, get_glob, print; simpl.
  destruct v; simpl; split_and!; auto;
    (exists []; split; [now rewrite app_nil_r|constructor]).
Qed.

Lemma remove_file_dry (p : string) : preserves dry_frame (remove_file p).
Proof.
  intros w D. open_world w. simpl in D. subst.
  unfold after, remove_file, debug, bind, get_world, get_glob, print; simpl.
  case_bool_decide; destruct v; simpl; split_and!; auto;
    (exists []; split; [now rewrite app_nil_r|constructor]).
Qed.

Lemma download_mod_dry (env : Env) (p url : string) :
  preserves dry_frame (download_mod env p url).
Proof.
  intros w D. open_world w. simpl in D. subst.
  unfold after, download_mod, requests_get_download, bind, get_glob, print; simpl.
  split_and!; auto. exists []. split; [now rewrite app_nil_r|constructor].
Qed.

Lemma set_has_to_reload_dry : preserves dry_frame set_has_to_reload.
Proof.
  intros w D. open_world w. simpl in D. subst.
  unfold after, set_has_to_reload, bind, get_glob, put_glob; simpl.
  split_and!; auto. exists []. split; [now rewrite app_nil_r|constructor].
Qed.

Lemma filter_against_only_stdout (sd : bool) (t : option Version) (l : list Release) :
  preserves only_stdout (filter_against sd t l).
Proof.
  unfold filter_against. intros w.
  destruct t; [reflexivity|]. destruct sd; [|reflexivity]. destruct l; reflexivity.
Qed.

Lemma get_mod_infos_dry (env : Env) (m : ModEntry) :
  preserves dry_frame (get_mod_infos env m).
Proof.
  unfold get_mod_infos.
  apply preserves_bind; [typeclasses eauto|eauto with frames|intros _].
  apply preserves_bind; [typeclasses eauto| |intros r].
  - intros w. apply (dry_frame_intro _ _ [GetModInfos (name m)]); auto.
    now repeat constructor.
  - pose proof filter_against_only_stdout. frame.
Qed.

#[export] Hint Resolve write_mods_list_dry remove_file_dry download_mod_dry
  set_has_to_reload_dry get_mod_infos_dry : frames.

Section DryRun.

Context `{Hashlib} (env : Env).

Lemma update_mod_dry (eo : bool) (m : ModEntry) : preserves dry_frame (update_mod env eo m).
Proof. unfold update_mod. frame. Qed.

Lemma update_mods_dry (eo : bool) : preserves dry_frame (update_mods env eo).
Proof. unfold update_mods. pose proof update_mod_dry. frame. Qed.

Lemma install_mod_dry (n : string) : preserves dry_frame (install_mod env n).
Proof. unfold install_mod. frame. Qed.

Lemma remove_mod_dry (n : string) : preserves dry_frame (remove_mod env n).
Proof. unfold remove_mod. frame. Qed.

Lemma update_state_mods_dry (l : list string) (b : bool) :
  preserves dry_frame (update_state_mods l b).
Proof. unfold update_state_mods. frame. Qed.

End DryRun.

(** ** [load_config] and [main] *)

Lemma modify_glob_no_io (f : Glob -> Glob) : preserves no_io (modify_glob f).
Proof. intros w. repeat split. Qed.

Lemma find_version_no_io (env : Env) : preserves no_io (find_version env).
Proof. unfold find_version. frame. Qed.

#[export] Hint Resolve modify_glob_no_io find_version_no_io : frames.

(** [load_config] only reads: whatever it returns, the disk, the network
    log and the service are as before. *)
Lemma load_config_no_io (env : Env) (args : Args) :
  preserves no_io (load_config env args).
Proof. unfold load_config. frame. Qed.

Lemma load_config_sets_dry_run (env : Env) (args : Args) (w w' : World) :
  load_config env args w = (Return true, w') ->
  dry_run (glob w') = arg_dry_run args.
Proof.
  open_world w. destruct v.
  all: unfold load_config, find_version, debug, modify_glob, bind, get_glob, put_glob,
    print, ret, exit; simpl.
  all: intros E; run; reflexivity.
Qed.

Lemma reload_and_finish_dry : preserves dry_frame reload_and_finish.
Proof.
  intros w D. open_world w. simpl in D. subst.
  unfold after, reload_and_finish, bind, get_glob, print, exit; simpl.
  case_match; simpl; split_and!; auto;
    (exists []; split; [now rewrite app_nil_r|constructor]).
Qed.

#[export] Hint Resolve reload_and_finish_dry update_mods_dry install_mod_dry
  remove_mod_dry update_state_mods_dry : frames.

Section Main.

Context `{Hashlib} (env : Env).

(** C8: in dry-run mode a whole run leaves the mods folder, the manifest
    and the service untouched and sends no download request, however it
    ends; every mutating primitive prints its log line instead of acting;
    the metadata fetch is still sent. *)
Theorem dry_run_changes_nothing (argc : nat) (args : Args) (w : World) :
  arg_dry_run args = true ->
  (let w' := after (main env argc args) w in
   mods_folder w' = mods_folder w /\
   mod_list_json w' = mod_list_json w /\
   restarted w' = restarted w /\
   exists l, http_log w' = (http_log w ++ l)%list /\ Forall is_metadata_request l) /\
  (forall w0 : World, dry_run (glob w0) = true ->
     (forall mods_list,
         no_io w0 (after (write_mods_list mods_list) w0) /\
         In (MsgDryWrite mods_list) (stdout (after (write_mods_list mods_list) w0))) /\
     (forall file_path, is_Some (mods_folder w0 !! file_path) ->
         no_io w0 (after (remove_file file_path) w0) /\
         In (MsgDryDelete file_path) (stdout (after (remove_file file_path) w0))) /\
     (forall file_path url,
         no_io w0 (after (download_mod env file_path url) w0) /\
         In (MsgDryDownload url) (stdout (after (download_mod env file_path url) w0))) /\
     (has_to_reload (glob w0) = true ->
         no_io w0 (after reload_and_finish w0) /\
         In (MsgDryReload (should_reload (glob w0))) (stdout (after reload_and_finish w0))) /\
     (forall m, In (GetModInfos (name m)) (http_log (after (get_mod_infos env m) w0)))).
Proof.
  intros Hdry. split.
  - intros w'.
    assert (exists w1, no_io w w1 /\
              (w' = w1 \/ dry_run (glob w1) = true /\ dry_frame w1 w')) as (w1&Hio&Hw').
    { assert (Hw : w' = after (main env argc args) w) by reflexivity.
      clearbody w'. unfold main, after in Hw.
      destruct (argc =? 1)%nat.
      { exists w'. split; [|left; reflexivity]. subst w'. simpl. now split_and!. }
      unfold bind at 1 in Hw.
      pose proof (load_config_no_io env args w) as Hio. unfold after in Hio.
      pose proof (load_config_sets_dry_run env args w) as Hd.
      destruct (load_config env args w) as [[ok|c|e] w1]; cbn [fst snd] in *;
        try (exists w1; split; [exact Hio|left; exact Hw]).
      destruct ok; cbn [negb] in Hw.
      - exists w1. split; [exact Hio|right].
        specialize (Hd w1 eq_refl). rewrite Hdry in Hd. split; [exact Hd|].
        subst w'.
        match goal with |- dry_frame w1 (snd (?m w1)) =>
          assert (Hm : preserves dry_frame m) by frame; apply Hm end.
      - exists w'. split; [|left; reflexivity]. subst w'.
        destruct Hio as (?&?&?&?). simpl. now split_and!. }
    destruct Hio as (E1&E2&E3&E4).
    destruct Hw' as [->|[D Hf]].
    + split_and!; auto. exists []. now rewrite app_nil_r.
    + destruct (Hf D) as (_&F1&F2&F3&l&F4&Hl).
      split_and!; try congruence. exists l. split; [congruence|exact Hl].
  - intros w0 D. open_world w0. simpl in D. subst. destruct v.
    all: unfold after, no_io, write_mods_list, remove_file, download_mod, requests_get_download,
           reload_and_finish, get_mod_infos, requests_get_api, filter_against, debug, bind,
           get_glob, get_world, print.
    all: split_and!; intros; run; rewrite ?in_app_iff; simpl; auto 10.
    all: try match goal with
             | H : bool_decide _ = false |- _ => apply bool_decide_eq_false in H; tauto
             end.
Qed.

End Main.

(** ** Running the primitives *)

Lemma bind_step {A B} (m : M A) (k : A -> M B) (w w1 : World) (r : result A) :
  m w = (r, w1) ->
  bind m k w =
  match r with
  | Return a => k a w1
  | SystemExit c => (SystemExit c, w1)
  | Uncaught e => (Uncaught e, w1)
  end.
Proof. intros E. unfold bind. rewrite E. now destruct r. Qed.

(** Projections of updated worlds, without unfolding map operations. *)
Ltac wsimpl :=
  cbn [glob mods_folder mod_list_json stdout http_log restarted
       with_glob with_mods_folder with_mod_list_json with_stdout with_http_log
       with_restarted fst snd] in *.

Ltac bstep E := rewrite (bind_step _ _ _ _ _ E); cbv beta iota zeta.

Lemma bind_assoc {A B C} (m : M A) (k : A -> M B) (k' : B -> M C) (w : World) :
  bind (bind m k) k' w = bind m (fun a => bind (k a) k') w.
Proof. unfold bind. destruct (m w) as [[a|c|e] w1]; reflexivity. Qed.

Lemma run_pair {A} (m : M A) (w : World) : m w = (outcome m w, after m w).
Proof. unfold outcome, after. now destruct (m w). Qed.

Lemma lookup_remove_all (names : list string) (m : gmap string bytes) (p : string) :
  remove_all names m !! p = if bool_decide (p ∈ names) then None else m !! p.
Proof.
  revert m. induction names as [|n names IH]; intros m; simpl.
  - reflexivity.
  - unfold remove_all in *. simpl. rewrite IH.
    destruct (decide (p = n)) as [->|Hne].
    + rewrite lookup_delete_eq.
      rewrite (bool_decide_eq_true_2 (n ∈ n :: names)) by (left).
      now case_bool_decide.
    + rewrite lookup_delete_ne by congruence.
      case_bool_decide as E1; case_bool_decide as E2; try reflexivity.
      * exfalso. apply E2. now right.
      * exfalso. apply elem_of_cons in E2. destruct E2; [congruence|tauto].
Qed.

Lemma debug_run (m : Msg) (w : World) :
  exists out, debug m w = (Return tt, with_stdout out w).
Proof.
  unfold debug, bind, get_glob. simpl.
  destruct (verbose (glob w)); [eexists; reflexivity|].
  exists (stdout w). now destruct w.
Qed.

Lemma print_run (m : Msg) (w : World) :
  print m w = (Return tt, with_stdout (stdout w ++ [m]) w).
Proof. reflexivity. Qed.

Lemma remove_file_run (p : string) (w : World) :
  exists out,
    remove_file p w =
    (Return tt,
     mkWorld (glob w)
       (if dry_run (glob w) then mods_folder w else delete p (mods_folder w))
       (mod_list_json w) out (http_log w) (restarted w)).
Proof.
  open_world w. destruct v, d.
  all: unfold remove_file, debug, bind, get_world, get_glob, print; simpl.
  all: case_bool_decide as E; simpl; try (eexists; reflexivity).
  all: rewrite delete_id by (now apply eq_None_not_Some); eexists; reflexivity.
Qed.

(** The two deletion loops, of [update_mods] and of [remove_mod]. *)
Lemma remove_loop_run (f : Release -> Msg) (l : list Release) (w : World) :
  exists out,
    for_each l (fun r => debug (f r) >> remove_file (file_name r)) w =
    (Return tt,
     mkWorld (glob w)
       (if dry_run (glob w) then mods_folder w
        else remove_all (map file_name l) (mods_folder w))
       (mod_list_json w) out (http_log w) (restarted w)).
Proof.
  revert w. induction l as [|r l IH]; intros w.
  - exists (stdout w). simpl. unfold ret, remove_all. simpl.
    destruct w as [g ? ? ? ? ?]. simpl. now destruct (dry_run g).
  - simpl.
    destruct (debug_run (f r) w) as [o1 E1].
    destruct (remove_file_run (file_name r) (with_stdout o1 w)) as [o2 E2].
    rewrite bind_assoc. bstep E1. bstep E2. simpl.
    match goal with |- context [for_each l _ ?w1] => destruct (IH w1) as [o3 E3] end.
    exists o3. rewrite E3. simpl. f_equal. f_equal.
    now destruct (dry_run (glob w)).
Qed.

Lemma read_mods_list_run (w : World) :
  exists out, read_mods_list false w = (Return (mod_list_json w), with_stdout out w).
Proof.
  unfold read_mods_list.
  destruct (debug_run MsgParsing w) as [o E]. bstep E.
  exists o. reflexivity.
Qed.

Lemma write_mods_list_run (l : list ModEntry) (w : World) :
  exists out,
    write_mods_list l w =
    (Return tt,
     mkWorld (glob w) (mods_folder w)
       (if dry_run (glob w) then mod_list_json w else l)
       out (http_log w) (restarted w)).
Proof.
  open_world w. destruct v, d.
  all: unfold write_mods_list, debug, bind, get_glob, print; simpl.
  all: eexists; reflexivity.
Qed.

Lemma check_file_and_sha_run `{Hashlib} (p s : string) (w : World) :
  exists out,
    check_file_and_sha p s w = (Return (file_is_current w p s), with_stdout out w).
Proof.
  unfold check_file_and_sha, file_is_current, bind, get_world. simpl.
  destruct (mods_folder w !! p) as [file|].
  - destruct (String.eqb s (get_file_sha1 file)); simpl.
    + eexists; reflexivity.
    + exists (stdout w). now destruct w.
  - exists (stdout w). now destruct w.
Qed.

Lemma set_has_to_reload_run (w : World) :
  set_has_to_reload w = (Return tt, with_glob (glob_has_to_reload (glob w)) w).
Proof. reflexivity. Qed.

(** Whatever it returns, [get_mod_infos] only logs its request. *)
Lemma get_mod_infos_world (env : Env) (m : ModEntry) (w : World) :
  exists out,
    after (get_mod_infos env m) w =
    mkWorld (glob w) (mods_folder w) (mod_list_json w) out
            (http_log w ++ [GetModInfos (name m)]) (restarted w).
Proof.
  open_world w. destruct v.
  all: unfold after, get_mod_infos, requests_get_api, filter_against, debug, bind, get_glob, print, ret, raise.
  all: run; eexists; reflexivity.
Qed.

Lemma get_mod_infos_run (env : Env) (m : ModEntry) (w : World) :
  exists out,
    get_mod_infos env m w =
    (outcome (get_mod_infos env m) w,
     mkWorld (glob w) (mods_folder w) (mod_list_json w) out
             (http_log w ++ [GetModInfos (name m)]) (restarted w)).
Proof.
  destruct (get_mod_infos_world env m w) as [out E].
  exists out. rewrite <- E. apply run_pair.
Qed.

(** What [get_mod_infos] returns, case by case. *)
Lemma get_mod_infos_found (env : Env) (m : ModEntry) (w : World)
    (rels : list Release) (target : Version) :
  status_code (api_mods env (name m)) = 200%Z ->
  json_releases (api_mods env (name m)) = Some rels ->
  factorio_version (glob w) = Some target ->
  outcome (get_mod_infos env m) w =
  Return (Some (mkInfos (name m) (enabled m) (sorted_releases rels)
                  (filtered_releases (should_downgrade (glob w)) target
                                     (sorted_releases rels)))).
Proof.
  intros Hs Hj Hv. open_world w. simpl in *. subst. destruct v.
  all: unfold outcome, get_mod_infos, requests_get_api, filter_against, debug, bind, get_glob, print, ret.
  all: simpl; rewrite Hs, Hj; reflexivity.
Qed.

(** The release the callers take is the one [resolve] computes. *)
Lemma get_mod_infos_selects (env : Env) (m : ModEntry) (w : World)
    (rels : list Release) (target : Version) (infos : ModInfos) :
  status_code (api_mods env (name m)) = 200%Z ->
  json_releases (api_mods env (name m)) = Some rels ->
  factorio_version (glob w) = Some target ->
  outcome (get_mod_infos env m) w = Return (Some infos) ->
  selected_release (same_version_releases infos) =
  resolve (should_downgrade (glob w)) target rels.
Proof.
  intros Hs Hj Hv Hi.
  rewrite (get_mod_infos_found env m w rels target Hs Hj Hv) in Hi.
  injection Hi as <-. reflexivity.
Qed.

Lemma get_mod_infos_fetch_failure (env : Env) (m : ModEntry) (w : World) :
  status_code (api_mods env (name m)) <> 200%Z ->
  outcome (get_mod_infos env m) w = Return None /\
  In (MsgErrorGetting (name m)) (stdout (after (get_mod_infos env m) w)).
Proof.
  intros Hs. apply Z.eqb_neq in Hs. open_world w. destruct v.
  all: unfold outcome, after, get_mod_infos, requests_get_api, debug, bind, get_glob, print, ret.
  all: simpl; rewrite Hs; simpl; split; [reflexivity|].
  all: rewrite ?in_app_iff; simpl; auto.
Qed.

Lemma get_mod_infos_missing_releases (env : Env) (m : ModEntry) (w : World) :
  status_code (api_mods env (name m)) = 200%Z ->
  json_releases (api_mods env (name m)) = None ->
  outcome (get_mod_infos env m) w = Uncaught KeyError.
Proof.
  intros Hs Hj. open_world w. destruct v.
  all: unfold outcome, get_mod_infos, requests_get_api, debug, bind, get_glob, print, ret.
  all: simpl; rewrite Hs, Hj; reflexivity.
Qed.

(** The outcome of [get_mod_infos] depends on [glob] only. *)
Lemma get_mod_infos_outcome_glob (env : Env) (m : ModEntry) (w w2 : World) :
  glob w2 = glob w ->
  outcome (get_mod_infos env m) w2 = outcome (get_mod_infos env m) w.
Proof.
  intros G. destruct w as [g ? ? ? ? ?], w2 as [g2 ? ? ? ? ?].
  simpl in G. subst g2. destruct g as [v ? ? ? ? ? ? ? ? ? ? ?]. destruct v.
  all: unfold outcome, get_mod_infos, requests_get_api, filter_against, debug, bind,
         get_glob, print, ret, raise.
  all: run; reflexivity.
Qed.

(** One step of execution for each primitive that always returns. *)
Ltac step :=
  let o := fresh "o" in
  let E := fresh "E" in
  match goal with
  | |- context [bind (debug ?m) _ ?w1] =>
      destruct (debug_run m w1) as [o E]; bstep E; clear E
  | |- context [bind (print ?m) _ ?w1] =>
      bstep (print_run m w1)
  | |- context [bind (read_mods_list false) _ ?w1] =>
      destruct (read_mods_list_run w1) as [o E]; bstep E; clear E
  | |- context [bind (write_mods_list ?l) _ ?w1] =>
      destruct (write_mods_list_run l w1) as [o E]; bstep E; clear E
  | |- context [bind (check_file_and_sha ?p ?s) _ ?w1] =>
      destruct (check_file_and_sha_run p s w1) as [o E]; bstep E; clear E
  | |- context [bind (for_each ?l (fun r => debug (@?f r) >> remove_file (file_name r))) _ ?w1] =>
      destruct (remove_loop_run f l w1) as [o E]; bstep E; clear E
  | |- context [bind set_has_to_reload _ ?w1] =>
      bstep (set_has_to_reload_run w1)
  end; wsimpl.

(** The last statement of a branch. *)
Ltac step_last :=
  let o := fresh "o" in
  let E := fresh "E" in
  match goal with
  | |- context [debug ?m ?w1] =>
      destruct (debug_run m w1) as [o E]; rewrite E; clear E
  | |- context [print ?m ?w1] => rewrite (print_run m w1)
  end; wsimpl.

(** Where the lists of a found mod come from. *)
Lemma get_mod_infos_sound (env : Env) (m : ModEntry) (w : World) (infos : ModInfos) :
  outcome (get_mod_infos env m) w = Return (Some infos) ->
  exists rels,
    json_releases (api_mods env (name m)) = Some rels /\
    mi_name infos = name m /\ mi_enabled infos = enabled m /\
    releases infos = sorted_releases rels /\
    match factorio_version (glob w) with
    | Some target =>
        same_version_releases infos =
        filtered_releases (should_downgrade (glob w)) target (sorted_releases rels)
    | None => same_version_releases infos = []
    end.
Proof.
  open_world w. destruct v.
  all: unfold outcome, get_mod_infos, requests_get_api, filter_against, debug, bind,
         get_glob, print, ret, raise.
  all: destruct (api_mods env (name m)) as [sc jr].
  all: intros E; run; eexists; split_and!; first [reflexivity|congruence].
Qed.

Lemma same_version_releases_incl (env : Env) (m : ModEntry) (w : World)
    (infos : ModInfos) (r : Release) :
  outcome (get_mod_infos env m) w = Return (Some infos) ->
  In r (same_version_releases infos) -> In r (releases infos).
Proof.
  intros Hi Hin. destruct (get_mod_infos_sound env m w infos Hi) as (rels&_&_&_&Hr&Hs).
  rewrite Hr. destruct (factorio_version (glob w)).
  - rewrite Hs in Hin. unfold filtered_releases in Hin.
    destruct (should_downgrade (glob w)); apply List.filter_In in Hin; tauto.
  - rewrite Hs in Hin. destruct Hin.
Qed.

(** The [enabled] flag of the entry is only copied. *)
Lemma get_mod_infos_any_enabled (env : Env) (n : string) (b b' : bool) (w : World)
    (infos : ModInfos) :
  outcome (get_mod_infos env (mkMod n b)) w = Return (Some infos) ->
  outcome (get_mod_infos env (mkMod n b')) w =
  Return (Some (mkInfos (mi_name infos) b' (releases infos) (same_version_releases infos))).
Proof.
  open_world w. destruct v.
  all: unfold outcome, get_mod_infos, requests_get_api, filter_against, debug, bind,
         get_glob, print, ret, raise.
  all: intros E; run; reflexivity.
Qed.

Lemma selected_not_in_delete_list (selected : Release) (l : list Release) :
  file_name selected ∉
    map file_name
      (List.filter (fun r => negb (String.eqb (file_name r) (file_name selected))) l).
Proof.
  intros Hin. apply list_elem_of_In, in_map_iff in Hin.
  destruct Hin as (r&Hn&Hr). apply List.filter_In in Hr. destruct Hr as [_ Hr].
  rewrite Hn, String.eqb_refl in Hr. discriminate.
Qed.

Lemma in_delete_list (selected r : Release) (l : list Release) :
  In r l -> file_name r <> file_name selected ->
  file_name r ∈
    map file_name
      (List.filter (fun r => negb (String.eqb (file_name r) (file_name selected))) l).
Proof.
  intros Hin Hne. apply list_elem_of_In, in_map. apply List.filter_In.
  split; [exact Hin|]. apply negb_true_iff, String.eqb_neq, Hne.
Qed.

(** Running [get_mod_infos] when its outcome is known. *)
Lemma get_mod_infos_step {B} (env : Env) (m : ModEntry) (k : option ModInfos -> M B)
    (w w1 : World) (r : result (option ModInfos)) :
  outcome (get_mod_infos env m) w = r ->
  glob w1 = glob w ->
  exists out,
    bind (get_mod_infos env m) k w1 =
    match r with
    | Return a =>
        k a (mkWorld (glob w1) (mods_folder w1) (mod_list_json w1) out
                     (http_log w1 ++ [GetModInfos (name m)]) (restarted w1))
    | SystemExit c =>
        (SystemExit c,
         mkWorld (glob w1) (mods_folder w1) (mod_list_json w1) out
                 (http_log w1 ++ [GetModInfos (name m)]) (restarted w1))
    | Uncaught e =>
        (Uncaught e,
         mkWorld (glob w1) (mods_folder w1) (mod_list_json w1) out
                 (http_log w1 ++ [GetModInfos (name m)]) (restarted w1))
    end.
Proof.
  intros Hr G. destruct (get_mod_infos_run env m w1) as [out E].
  rewrite (get_mod_infos_outcome_glob env m w w1 G), Hr in E.
  exists out. now bstep E.
Qed.

Ltac step_infos Hi :=
  let o := fresh "o" in
  let E := fresh "E" in
  match goal with
  | |- context [bind (get_mod_infos ?env ?m) ?k ?w1] =>
      destruct (get_mod_infos_step env m k _ w1 _ Hi eq_refl) as [o E];
      rewrite E; clear E; cbv beta iota zeta; wsimpl
  end.


(** ** Downloads *)

#[local] Instance writes_only_preorder (p : string) : PreOrder (writes_only p).
Proof.
  split.
  - intros w. split_and!; auto.
  - intros a b c (?&?&?&Hq&Hp) (?&?&?&Hq'&Hp').
    split_and!; try congruence; auto.
    intros q Hne. rewrite Hq', Hq; auto.
Qed.

Lemma only_stdout_writes_only (p : string) (w w' : World) :
  only_stdout w w' -> writes_only p w w'.
Proof. intros (?&E&?&?&?). split_and!; auto; rewrite E; auto. Qed.

#[export] Hint Extern 4 (preserves (writes_only _) _) =>
  (apply (preserves_weaken _ _ _ (only_stdout_writes_only _))) : frames.

Lemma open_wb_writes_only (p : string) : preserves (writes_only p) (open_wb p).
Proof.
  intros w. unfold after, open_wb, writes_only. wsimpl. split_and!; auto.
  - intros q Hne. now rewrite lookup_insert_ne.
  - intros _. rewrite lookup_insert_eq. eauto.
Qed.

Lemma fd_write_writes_only (p : string) (data : bytes) :
  preserves (writes_only p) (fd_write p data).
Proof.
  intros w. unfold after, fd_write, writes_only. wsimpl. split_and!; auto.
  - intros q Hne. now rewrite lookup_insert_ne.
  - intros _. rewrite lookup_insert_eq. eauto.
Qed.

Lemma requests_get_download_writes_only (env : Env) (p url : string) (u t : option string) :
  preserves (writes_only p) (requests_get_download env url u t).
Proof. intros w. unfold after, requests_get_download. simpl. split_and!; auto. Qed.

#[export] Hint Resolve open_wb_writes_only fd_write_writes_only
  requests_get_download_writes_only : frames.

Lemma download_mod_writes_only (env : Env) (p url : string) :
  preserves (writes_only p) (download_mod env p url).
Proof. unfold download_mod. frame. Qed.

(** A download that returns has left a file at [p]. *)
Lemma download_mod_returns (env : Env) (p url : string) (w : World) :
  dry_run (glob w) = false ->
  outcome (download_mod env p url) w = Return tt ->
  is_Some (mods_folder (after (download_mod env p url) w) !! p).
Proof.
  intros D. unfold outcome, after, download_mod.
  bstep (eq_refl : get_glob w = (Return (glob w), w)). rewrite D.
  match goal with |- context [bind (requests_get_download env url ?u ?t) _ w] =>
    bstep (eq_refl : requests_get_download env url u t w =
                     (Return (mods_portal env url u t),
                      with_http_log (http_log w ++ [GetArtifact url u t]) w))
  end.
  destruct (negb _).
  { intros Hc. cbv in Hc. discriminate Hc. }
  match goal with |- context [bind (open_wb p) _ ?w1] =>
    bstep (eq_refl : open_wb p w1 =
                     (Return tt, with_mods_folder (<[p := []]> (mods_folder w1)) w1))
  end.
  intros _.
  match goal with |- is_Some (mods_folder (snd (?m ?w1)) !! p) =>
    assert (Hm : preserves (writes_only p) m) by frame;
    destruct (Hm w1) as (_&_&_&_&Hp)
  end.
  apply Hp. wsimpl. rewrite lookup_insert_eq. eauto.
Qed.

Section Operations.

Context `{Hashlib} (env : Env).

(** C7: outside dry-run mode, when the response to a download is not of
    type [application/zip], [download_mod] exits with status 1: the mods
    folder, the manifest, [glob] and the service are as before, and no
    continuation of the download runs. *)
Theorem download_wrong_content_type (file_path url : string) (w : World) :
  dry_run (glob w) = false ->
  content_type (mods_portal env url (username (glob w)) (token (glob w)))
    <> Some "application/zip" ->
  let w' := after (download_mod env file_path url) w in
  outcome (download_mod env file_path url) w = SystemExit 1 /\
  mods_folder w' = mods_folder w /\
  mod_list_json w' = mod_list_json w /\
  glob w' = glob w /\
  restarted w' = restarted w /\
  In MsgNotZip (stdout w') /\
  forall (B : Type) (k : unit -> M B),
    bind (download_mod env file_path url) k w = (SystemExit 1, w').
Proof.
  intros D Hct w'.
  assert (E : download_mod env file_path url w =
              (SystemExit 1,
               mkWorld (glob w) (mods_folder w) (mod_list_json w)
                 (stdout w ++ [MsgNotZip; MsgWrongCredentials; MsgAborting])
                 (http_log w ++ [GetArtifact url (username (glob w)) (token (glob w))])
                 (restarted w))).
  { unfold download_mod, requests_get_download, bind, get_glob, print, exit.
    rewrite D. cbv beta iota.
    rewrite bool_decide_eq_false_2 by exact Hct. simpl.
    now rewrite <- !app_assoc. }
  subst w'. unfold outcome, after. rewrite E. simpl.
  split_and!; auto.
  - rewrite in_app_iff. right. now left.
  - intros B k. now bstep E.
Qed.

#[local] Instance same_manifest_preorder : PreOrder same_manifest.
Proof. split; unfold same_manifest; [intros w|intros a b c]; congruence. Qed.

Lemma install_tail_same_manifest (n : string) (infos : ModInfos) (selected : Release) :
  preserves same_manifest
    (let* same := check_file_and_sha (file_name selected) (sha1 selected) in
     if same then ret None
     else
       debug (MsgDownloading (mi_name infos)) >>
       download_mod env (file_name selected) (download_url selected) >>
       print (MsgInstalled n (version selected) (info_json_factorio_version selected)) >>
       set_has_to_reload >>
       ret (Some true)).
Proof.
  assert (forall w w', only_stdout w w' -> same_manifest w w') as W1
      by (intros w w' (?&?&?&?&?); assumption).
  assert (forall p w w', writes_only p w w' -> same_manifest w w') as W2
      by (intros p w w' (?&?&?&?&?); assumption).
  pose proof (fun p s => preserves_weaken _ _ _ W1 (check_file_and_sha_only_stdout p s)).
  pose proof (fun m => preserves_weaken _ _ _ W1 (debug_only_stdout m)).
  pose proof (fun m => preserves_weaken _ _ _ W1 (print_only_stdout m)).
  pose proof (fun p u => preserves_weaken _ _ _ (W2 p) (download_mod_writes_only env p u)).
  assert (preserves same_manifest set_has_to_reload) by (intros w; reflexivity).
  frame.
Qed.

(** C10, for a real (not dry) run: when [get_mod_infos] finds the mod
    and a compatible release is selected, [install_mod] appends the entry
    to the manifest on disk, whatever else happens to the download; when
    the local file is already current the download is skipped (no
    artifact request, nothing written to the mods folder, no restart
    flag), and the manifest has gained the entry all the same, as a
    duplicate when the name was there already. *)
Theorem install_registers_before_check (mod_name : string) (w : World)
    (infos : ModInfos) (selected : Release) :
  dry_run (glob w) = false ->
  outcome (get_mod_infos env (mkMod mod_name true)) w = Return (Some infos) ->
  selected_release (same_version_releases infos) = Some selected ->
  let w' := after (install_mod env mod_name) w in
  mod_list_json w' = (mod_list_json w ++ [mkMod mod_name true])%list /\
  (file_is_current w (file_name selected) (sha1 selected) = true ->
   outcome (install_mod env mod_name) w = Return None /\
   http_log w' = (http_log w ++ [GetModInfos mod_name])%list /\
   mods_folder w' = mods_folder w /\
   glob w' = glob w /\
   (forall e, name e = mod_name -> In e (mod_list_json w) ->
              2 <= length (List.filter (fun e' => String.eqb (name e') mod_name)
                                       (mod_list_json w')))%nat).
Proof.
  intros D Hi Hs w'. subst w'. unfold outcome, after, install_mod.
  step. step_infos Hi.
  destruct (same_version_releases infos) as [|sel rest]; [discriminate|].
  injection Hs as ->.
  step. step. rewrite D.
  match goal with |- context [bind (check_file_and_sha _ _) _ ?w1] =>
    pose proof (install_tail_same_manifest mod_name infos selected w1) as Hm
  end.
  split.
  - unfold same_manifest, after in Hm. rewrite Hm. reflexivity.
  - clear Hm. intros Hcur. step.
    match goal with |- context [file_is_current ?w1 _ _] =>
      change (file_is_current w1 (file_name selected) (sha1 selected))
        with (file_is_current w (file_name selected) (sha1 selected))
    end.
    rewrite Hcur. unfold ret. wsimpl. split_and!; auto.
    intros e He Hin. rewrite List.filter_app, List.length_app. simpl.
    rewrite String.eqb_refl. simpl.
    assert (In e (List.filter (fun e' => String.eqb (name e') mod_name) (mod_list_json w))) as Hf.
    { apply List.filter_In. split; [exact Hin|]. rewrite He. apply String.eqb_refl. }
    destruct (List.filter _ (mod_list_json w)); [destruct Hf|simpl; lia].
Qed.

(** The check of [update_mods] runs after the deletion loop, which leaves
    the selected file alone. *)
Lemma file_is_current_after_loop (w : World) (g : Glob) (selected : Release)
    (l : list Release) (m : list ModEntry) (o : list Msg) (h : list Request)
    (rs : list (option string)) :
  let names :=
    map file_name
      (List.filter (fun r => negb (String.eqb (file_name r) (file_name selected))) l) in
  file_is_current
    (mkWorld g (if dry_run g then mods_folder w else remove_all names (mods_folder w))
             m o h rs)
    (file_name selected) (sha1 selected) =
  file_is_current w (file_name selected) (sha1 selected).
Proof.
  intros names. unfold file_is_current. wsimpl.
  destruct (dry_run g); [reflexivity|].
  rewrite lookup_remove_all.
  rewrite bool_decide_eq_false_2 by apply selected_not_in_delete_list.
  reflexivity.
Qed.

(** [update_mod] and [install_mod] when the selected file is current. *)
Lemma update_mod_current_run (enabled_only : bool) (mod_ : ModEntry)
    (w : World) (infos : ModInfos) (selected : Release) (rest : list Release) :
  outcome (get_mod_infos env mod_) w = Return (Some infos) ->
  same_version_releases infos = selected :: rest ->
  file_is_current w (file_name selected) (sha1 selected) = true ->
  exists out,
    update_mod env enabled_only mod_ w =
    (Return tt,
     mkWorld (glob w)
       (if (enabled_only && negb (mi_enabled infos)) || dry_run (glob w)
        then mods_folder w
        else remove_all
               (map file_name
                  (List.filter
                     (fun r => negb (String.eqb (file_name r) (file_name selected)))
                     (releases infos)))
               (mods_folder w))
       (mod_list_json w) out
       (http_log w ++ [GetModInfos (name mod_)]) (restarted w)).
Proof.
  intros Hi Hsv Hcur. unfold update_mod. step_infos Hi.
  destruct (enabled_only && negb (mi_enabled infos)).
  { step_last. eexists. reflexivity. }
  rewrite Hsv. step. step. rewrite file_is_current_after_loop, Hcur.
  eexists. reflexivity.
Qed.

Lemma install_mod_current_run (n : string) (w : World) (infos : ModInfos)
    (selected : Release) (rest : list Release) :
  outcome (get_mod_infos env (mkMod n true)) w = Return (Some infos) ->
  same_version_releases infos = selected :: rest ->
  file_is_current w (file_name selected) (sha1 selected) = true ->
  exists out,
    install_mod env n w =
    (Return None,
     mkWorld (glob w) (mods_folder w)
       (if dry_run (glob w) then mod_list_json w
        else (mod_list_json w ++ [mkMod n true])%list)
       out (http_log w ++ [GetModInfos n]) (restarted w)).
Proof.
  intros Hi Hsv Hcur. unfold install_mod. step. step_infos Hi. rewrite Hsv.
  step. step. step.
  match goal with |- context [file_is_current ?w1 _ _] =>
    change (file_is_current w1 (file_name selected) (sha1 selected))
      with (file_is_current w (file_name selected) (sha1 selected))
  end.
  rewrite Hcur. eexists. reflexivity.
Qed.

(** C4: when the selected release's file is on disk with the
    published digest, the check returns [True] having only printed, and
    both [update_mods] (for that mod) and [install_mod] return without
    downloading: the only request is the metadata fetch, no file of the
    mods folder is written, [glob] (so the restart flag) and the service
    are as before.  What ran before the check is not the check's doing and
    is the same whatever the digest: after the update step the selected
    file is as before and every other file is as before or gone (taken by
    the deletion loop), after the install the manifest is the one
    [write_mods_list] left, with the new entry outside dry-run mode. *)
Theorem hash_match_skips_download (enabled_only : bool) (mod_ : ModEntry)
    (w : World) (infos : ModInfos) (selected : Release) :
  outcome (get_mod_infos env mod_) w = Return (Some infos) ->
  selected_release (same_version_releases infos) = Some selected ->
  file_is_current w (file_name selected) (sha1 selected) = true ->
  let check := check_file_and_sha (file_name selected) (sha1 selected) in
  let wu := after (update_mod env enabled_only mod_) w in
  let wi := after (install_mod env (name mod_)) w in
  (outcome check w = Return true /\ only_stdout w (after check w)) /\
  (outcome (update_mod env enabled_only mod_) w = Return tt /\
   http_log wu = (http_log w ++ [GetModInfos (name mod_)])%list /\
   glob wu = glob w /\
   mod_list_json wu = mod_list_json w /\
   restarted wu = restarted w /\
   mods_folder wu !! file_name selected = mods_folder w !! file_name selected /\
   (forall p, mods_folder wu !! p = mods_folder w !! p \/ mods_folder wu !! p = None)) /\
  (outcome (install_mod env (name mod_)) w = Return None /\
   http_log wi = (http_log w ++ [GetModInfos (name mod_)])%list /\
   glob wi = glob w /\
   mods_folder wi = mods_folder w /\
   restarted wi = restarted w /\
   mod_list_json wi =
     if dry_run (glob w) then mod_list_json w
     else (mod_list_json w ++ [mkMod (name mod_) true])%list).
Proof.
  intros Hi Hs Hcur check wu wi. subst check wu wi.
  destruct (same_version_releases infos) as [|sel rest] eqn:Hsv; [discriminate|].
  injection Hs as ->.
  split; [split|split].
  - destruct (check_file_and_sha_run (file_name selected) (sha1 selected) w) as [o E].
    unfold outcome. rewrite E. wsimpl. now rewrite Hcur.
  - apply check_file_and_sha_only_stdout.
  - destruct (update_mod_current_run enabled_only mod_ w infos selected rest Hi Hsv Hcur)
      as [o E].
    unfold outcome, after. rewrite E. wsimpl. split_and!; try reflexivity.
    + destruct (_ || _); [reflexivity|]. rewrite lookup_remove_all.
      now rewrite bool_decide_eq_false_2 by apply selected_not_in_delete_list.
    + intros p. destruct (_ || _); [now left|].
      rewrite lookup_remove_all. case_bool_decide; [now right|now left].
  - pose proof (get_mod_infos_any_enabled env (name mod_) (enabled mod_) true w infos) as Hi'.
    destruct mod_ as [n b]. simpl in *. specialize (Hi' Hi).
    destruct (install_mod_current_run n w _ selected rest Hi' Hsv Hcur) as [o E].
    unfold outcome, after. rewrite E. wsimpl. now split_and!.
Qed.

(** The mods folder after [update_mod] on a mod that is processed:
    away from the selected file it is the folder without the other
    release files; the selected file is there when the step returns. *)
Lemma update_mod_folder (enabled_only : bool) (mod_ : ModEntry) (w : World)
    (infos : ModInfos) (selected : Release) (rest : list Release) :
  dry_run (glob w) = false ->
  outcome (get_mod_infos env mod_) w = Return (Some infos) ->
  same_version_releases infos = selected :: rest ->
  enabled_only && negb (mi_enabled infos) = false ->
  let names :=
    map file_name
      (List.filter (fun r => negb (String.eqb (file_name r) (file_name selected)))
                   (releases infos)) in
  let w' := after (update_mod env enabled_only mod_) w in
  (forall q, q <> file_name selected ->
             mods_folder w' !! q = remove_all names (mods_folder w) !! q) /\
  (outcome (update_mod env enabled_only mod_) w = Return tt ->
   is_Some (mods_folder w' !! file_name selected)).
Proof.
  intros D Hi Hsv Hskip names w'. subst w'.
  unfold outcome, after, update_mod. step_infos Hi. rewrite Hskip, Hsv.
  step. step. rewrite file_is_current_after_loop. rewrite D.
  fold names.
  destruct (file_is_current w (file_name selected) (sha1 selected)) eqn:Hcur.
  - unfold ret. wsimpl. split; [reflexivity|]. intros _.
    rewrite lookup_remove_all.
    rewrite bool_decide_eq_false_2 by apply selected_not_in_delete_list.
    unfold file_is_current in Hcur.
    destruct (mods_folder w !! file_name selected); [eauto|discriminate].
  - step.
    match goal with |- context [bind (download_mod env ?p ?u) _ ?w1] =>
      pose proof (download_mod_writes_only env p u w1) as Hwo;
      pose proof (download_mod_returns env p u w1 D) as Hret;
      rewrite (bind_step _ _ _ _ _ (run_pair (download_mod env p u) w1))
    end.
    destruct Hwo as (_&_&_&Hq&_). wsimpl.
    destruct (outcome (download_mod env _ _) _) as [[]|c|e] eqn:Ho.
    + rewrite set_has_to_reload_run. wsimpl. split; [exact Hq|].
      intros _. now apply Hret.
    + wsimpl. split; [exact Hq|discriminate].
    + wsimpl. split; [exact Hq|discriminate].
Qed.

(** C5, as the code has it: outside dry-run mode, when [update_mods]
    processes a mod for which a release is selected, every other release
    file of that mod, told apart by its file name alone, is gone from the
    mods folder, and files that are no release of the mod are untouched;
    when the step returns (the file was kept or downloaded) the selected
    file is the one release file of the mod in the folder. *)
Theorem update_removes_superseded (enabled_only : bool) (mod_ : ModEntry)
    (w : World) (infos : ModInfos) (selected : Release) :
  dry_run (glob w) = false ->
  outcome (get_mod_infos env mod_) w = Return (Some infos) ->
  selected_release (same_version_releases infos) = Some selected ->
  enabled_only && negb (mi_enabled infos) = false ->
  let w' := after (update_mod env enabled_only mod_) w in
  (forall r, In r (releases infos) -> file_name r <> file_name selected ->
             mods_folder w' !! file_name r = None) /\
  (forall p, (forall r, In r (releases infos) -> file_name r <> p) ->
             mods_folder w' !! p = mods_folder w !! p) /\
  (outcome (update_mod env enabled_only mod_) w = Return tt ->
   forall r, In r (releases infos) ->
             (is_Some (mods_folder w' !! file_name r) <->
              file_name r = file_name selected)).
Proof.
  intros D Hi Hs Hskip w'.
  destruct (same_version_releases infos) as [|sel rest] eqn:Hsv; [discriminate|].
  injection Hs as ->.
  destruct (update_mod_folder enabled_only mod_ w infos selected rest D Hi Hsv Hskip)
    as [Hq Hp].
  fold w' in Hq, Hp.
  assert (Hother : forall r, In r (releases infos) ->
                             file_name r <> file_name selected ->
                             mods_folder w' !! file_name r = None).
  { intros r Hin Hne. rewrite Hq by exact Hne. rewrite lookup_remove_all.
    now rewrite bool_decide_eq_true_2 by (apply in_delete_list; assumption). }
  split_and!.
  - exact Hother.
  - intros p Hp'.
    assert (p <> file_name selected) as Hne.
    { intros ->. apply (Hp' selected); [|reflexivity].
      eapply same_version_releases_incl; [exact Hi|]. rewrite Hsv. now left. }
    rewrite Hq by exact Hne. rewrite lookup_remove_all.
    rewrite bool_decide_eq_false_2; [reflexivity|].
    intros Hin. apply list_elem_of_In, in_map_iff in Hin.
    destruct Hin as (r&Hn&Hr). apply List.filter_In in Hr.
    apply (Hp' r); tauto.
  - intros Hret r Hin. split.
    + intros Hsome. destruct (decide (file_name r = file_name selected)) as [|Hne];
        [assumption|].
      rewrite (Hother r Hin Hne) in Hsome. now destruct Hsome.
    + intros ->. now apply Hp.
Qed.

(** C6, as the code has it: outside dry-run mode, when
    [get_mod_infos] returns the infos of the mod (the portal answers 200
    with a ['releases'] list and the comparison with the host version does
    not raise), [remove_mod] deletes every release file of the mod that is
    in the mods folder, however many there are, leaves the other files
    alone, drops every manifest entry with that name and raises the
    restart flag. *)
Theorem remove_deletes_all_releases (mod_name : string) (w : World) (infos : ModInfos) :
  dry_run (glob w) = false ->
  outcome (get_mod_infos env (mkMod mod_name true)) w = Return (Some infos) ->
  let w' := after (remove_mod env mod_name) w in
  outcome (remove_mod env mod_name) w = Return None /\
  (forall r, In r (releases infos) -> mods_folder w' !! file_name r = None) /\
  (forall p, (forall r, In r (releases infos) -> file_name r <> p) ->
             mods_folder w' !! p = mods_folder w !! p) /\
  mod_list_json w' =
    List.filter (fun e => negb (String.eqb mod_name (name e))) (mod_list_json w) /\
  (forall e, In e (mod_list_json w') -> name e <> mod_name) /\
  (forall e, In e (mod_list_json w) -> name e <> mod_name -> In e (mod_list_json w')) /\
  has_to_reload (glob w') = true.
Proof.
  intros D Hi w'.
  assert (exists out,
             remove_mod env mod_name w =
             (Return None,
              mkWorld (glob_has_to_reload (glob w))
                (remove_all (map file_name (releases infos)) (mods_folder w))
                (List.filter (fun e => negb (String.eqb mod_name (name e)))
                             (mod_list_json w))
                out (http_log w ++ [GetModInfos mod_name]) (restarted w)))
    as [out E].
  { unfold remove_mod. step. step_infos Hi. step. step. step. rewrite D.
    step. unfold ret. eexists. reflexivity. }
  subst w'. unfold outcome, after. rewrite E. wsimpl.
  split_and!; try reflexivity.
  - intros r Hin. rewrite lookup_remove_all.
    rewrite bool_decide_eq_true_2; [reflexivity|].
    now apply list_elem_of_In, in_map.
  - intros p Hp. rewrite lookup_remove_all.
    rewrite bool_decide_eq_false_2; [reflexivity|].
    intros Hin. apply list_elem_of_In, in_map_iff in Hin.
    destruct Hin as (r&Hn&Hr). now apply (Hp r).
  - intros e He Hn. apply List.filter_In in He. destruct He as [_ He].
    rewrite <- Hn, String.eqb_refl in He. discriminate.
  - intros e He Hn. apply List.filter_In. split; [exact He|].
    apply negb_true_iff, String.eqb_neq. congruence.
Qed.

End Operations.

(** ** Failures of the metadata fetch *)

Section Fetch.

Context `{Hashlib} (env : Env).

(** [update_mods] subscripts the [None] that [get_mod_infos] returns. *)
Lemma update_mod_fetch_failure (enabled_only : bool) (mod_ : ModEntry) (w : World) :
  status_code (api_mods env (name mod_)) <> 200%Z ->
  outcome (update_mod env enabled_only mod_) w = Uncaught TypeError.
Proof.
  intros Hs. unfold outcome, update_mod.
  destruct (get_mod_infos_fetch_failure env mod_ w Hs) as [Hr _].
  step_infos Hr. reflexivity.
Qed.

Lemma update_mod_missing_releases (enabled_only : bool) (mod_ : ModEntry) (w : World) :
  status_code (api_mods env (name mod_)) = 200%Z ->
  json_releases (api_mods env (name mod_)) = None ->
  outcome (update_mod env enabled_only mod_) w = Uncaught KeyError.
Proof.
  intros Hs Hj. unfold outcome, update_mod.
  pose proof (get_mod_infos_missing_releases env mod_ w Hs Hj) as Hr.
  step_infos Hr. reflexivity.
Qed.

(** An exception in the body ends the loop: the mods behind are not
    processed. *)
Lemma for_each_uncaught {A} (x : A) (l : list A) (body : A -> M unit)
    (w w1 : World) (e : exn) :
  body x w = (Uncaught e, w1) -> for_each (x :: l) body w = (Uncaught e, w1).
Proof. intros E. simpl. now bstep E. Qed.

Lemma for_each_exit {A} (x : A) (l : list A) (body : A -> M unit)
    (w w1 : World) (c : Z) :
  body x w = (SystemExit c, w1) -> for_each (x :: l) body w = (SystemExit c, w1).
Proof. intros E. simpl. now bstep E. Qed.

(** [install_mod] checks for [None]: the mod is skipped. *)
Lemma install_mod_fetch_failure (n : string) (w : World) :
  status_code (api_mods env n) <> 200%Z ->
  outcome (install_mod env n) w = Return None /\
  mods_folder (after (install_mod env n) w) = mods_folder w /\
  mod_list_json (after (install_mod env n) w) = mod_list_json w /\
  glob (after (install_mod env n) w) = glob w.
Proof.
  intros Hs.
  destruct (get_mod_infos_fetch_failure env (mkMod n true) w Hs) as [Hr _].
  unfold outcome, after, install_mod. step. step_infos Hr. step.
  unfold ret. wsimpl. now split_and!.
Qed.

(** No compatible release: both operations print and go on. *)
Lemma update_mod_no_match (enabled_only : bool) (mod_ : ModEntry) (w : World)
    (infos : ModInfos) :
  outcome (get_mod_infos env mod_) w = Return (Some infos) ->
  same_version_releases infos = [] ->
  outcome (update_mod env enabled_only mod_) w = Return tt /\
  mods_folder (after (update_mod env enabled_only mod_) w) = mods_folder w /\
  mod_list_json (after (update_mod env enabled_only mod_) w) = mod_list_json w /\
  glob (after (update_mod env enabled_only mod_) w) = glob w.
Proof.
  intros Hi Hsv. unfold outcome, after, update_mod. step_infos Hi.
  destruct (enabled_only && negb (mi_enabled infos)).
  - step_last. now split_and!.
  - rewrite Hsv. step_last. now split_and!.
Qed.

Lemma install_mod_no_match (n : string) (w : World) (infos : ModInfos) :
  outcome (get_mod_infos env (mkMod n true)) w = Return (Some infos) ->
  same_version_releases infos = [] ->
  outcome (install_mod env n) w = Return None /\
  mods_folder (after (install_mod env n) w) = mods_folder w /\
  mod_list_json (after (install_mod env n) w) = mod_list_json w /\
  glob (after (install_mod env n) w) = glob w /\
  In (MsgNoMatchNotInstalled n) (stdout (after (install_mod env n) w)).
Proof.
  intros Hi Hsv. unfold outcome, after, install_mod. step. step_infos Hi.
  rewrite Hsv. step. unfold ret. wsimpl. split_and!; auto.
  rewrite in_app_iff. right. now left.
Qed.

End Fetch.

(** ** When [get_mod_infos] returns the infos of a mod *)

(** With no detected host version: [==] matches nothing, [<=] raises on
    the first release. *)
Lemma get_mod_infos_no_version (env : Env) (m : ModEntry) (w : World)
    (rels : list Release) :
  factorio_version (glob w) = None ->
  status_code (api_mods env (name m)) = 200%Z ->
  json_releases (api_mods env (name m)) = Some rels ->
  outcome (get_mod_infos env m) w =
  if should_downgrade (glob w) then
    match sorted_releases rels with
    | [] => Return (Some (mkInfos (name m) (enabled m) [] []))
    | _ :: _ => Uncaught TypeError
    end
  else Return (Some (mkInfos (name m) (enabled m) (sorted_releases rels) [])).
Proof.
  intros Hv Hs Hj. open_world w. simpl in *. subst. destruct v.
  all: unfold outcome, get_mod_infos, requests_get_api, filter_against, debug, bind,
         get_glob, print, ret, raise.
  all: simpl; rewrite Hs, Hj; simpl.
  all: match goal with |- context [if ?b then _ else _] => destruct b end;
         [destruct (sorted_releases rels)|]; reflexivity.
Qed.

(** [get_mod_infos] returns the infos of a mod exactly when the portal
    answers 200 with a ['releases'] list and the comparison with the host
    version does not raise, which it does only with [--downgrade], no
    detected host version and at least one release. *)
Lemma get_mod_infos_returns_iff (env : Env) (m : ModEntry) (w : World) :
  (exists infos, outcome (get_mod_infos env m) w = Return (Some infos)) <->
  status_code (api_mods env (name m)) = 200%Z /\
  exists rels,
    json_releases (api_mods env (name m)) = Some rels /\
    (factorio_version (glob w) = None -> should_downgrade (glob w) = true -> rels = []).
Proof.
  split.
  - intros [infos Hi].
    destruct (decide (status_code (api_mods env (name m)) = 200%Z)) as [Hs|Hs].
    2:{ destruct (get_mod_infos_fetch_failure env m w Hs) as [Hr _]. congruence. }
    split; [exact Hs|].
    destruct (json_releases (api_mods env (name m))) as [rels|] eqn:Hj.
    2:{ pose proof (get_mod_infos_missing_releases env m w Hs Hj). congruence. }
    exists rels. split; [reflexivity|]. intros Hv Hd.
    destruct rels as [|r rels]; [reflexivity|].
    pose proof (get_mod_infos_no_version env m w (r :: rels) Hv Hs Hj) as Hr.
    rewrite Hd in Hr.
    assert (sorted_releases (r :: rels) <> []) as Hne
      by (apply sorted_releases_nonempty; discriminate).
    destruct (sorted_releases (r :: rels)); [congruence|]. congruence.
  - intros (Hs & rels & Hj & Hok).
    destruct (factorio_version (glob w)) as [target|] eqn:Hv.
    + eexists. apply (get_mod_infos_found env m w rels target Hs Hj Hv).
    + rewrite (get_mod_infos_no_version env m w rels Hv Hs Hj).
      destruct (should_downgrade (glob w)); [|eexists; reflexivity].
      rewrite (Hok eq_refl eq_refl). simpl. eexists. reflexivity.
Qed.

(** When [get_mod_infos] raises, [remove_mod] dies with it: no file is
    deleted and the manifest keeps its entries. *)
Lemma remove_mod_lookup_raises (env : Env) (n : string) (w : World) (e : exn) :
  outcome (get_mod_infos env (mkMod n true)) w = Uncaught e ->
  outcome (remove_mod env n) w = Uncaught e /\
  mods_folder (after (remove_mod env n) w) = mods_folder w /\
  mod_list_json (after (remove_mod env n) w) = mod_list_json w /\
  glob (after (remove_mod env n) w) = glob w.
Proof.
  intros Hr. unfold outcome, after, remove_mod. step. step_infos Hr.
  now split_and!.
Qed.

(** ** Configuration errors *)

Section Configuration.

Context `{Hashlib} (env : Env).

(** When [load_config] reports an error, [main] exits with status 1
    and nothing was deleted, downloaded, written or restarted. *)
Lemma config_error_stops_run (argc : nat) (args : Args) (w : World) :
  argc <> 1%nat ->
  outcome (load_config env args) w = Return false ->
  outcome (main env argc args) w = SystemExit 1 /\
  no_io w (after (main env argc args) w).
Proof.
  intros Hargc Hl. apply Nat.eqb_neq in Hargc.
  pose proof (load_config_no_io env args w) as Hio.
  unfold outcome, after, main in *. rewrite Hargc.
  rewrite (bind_step _ _ _ _ _ (run_pair (load_config env args) w)).
  unfold outcome, after. rewrite Hl. cbv beta iota. simpl.
  split; [reflexivity|]. destruct Hio as (?&?&?&?). now split_and!.
Qed.

(** No path on the command line and none in the configuration. *)
Lemma load_config_missing_path (args : Args) (w : World) :
  truthy (arg_factorio_path args) = false ->
  (forall c, config_json env = Some c -> cfg_factorio_path c = None) ->
  outcome (load_config env args) w = Return false \/
  outcome (load_config env args) w = SystemExit 2.
Proof.
  intros Hp Hc. open_world w. destruct v.
  all: unfold outcome, load_config, find_version, debug, modify_glob, bind, get_glob,
         put_glob, print, ret, exit.
  all: rewrite Hp.
  all: destruct (config_json env) as [c|] eqn:Ec;
         [rewrite (Hc c eq_refl)|]; simpl.
  all: repeat (match goal with |- context [if ?b then _ else _] => destruct b end;
               simpl); auto.
Qed.

(** An update or an install without a user name. *)
Lemma load_config_missing_username (args : Args) (w : World) (r : bool) :
  should_update args = true \/ mod_name_to_install args <> None ->
  py_or (arg_username args)
        (default "" (cfg_username (default empty_config (config_json env)))) = "" ->
  outcome (load_config env args) w = Return r -> r = false.
Proof.
  intros Hreq Hu. open_world w. destruct v.
  all: unfold outcome, load_config, find_version, debug, modify_glob, bind, get_glob,
         put_glob, print, ret, exit.
  all: assert (should_update args || bool_decide (mod_name_to_install args <> None) = true)
         as Hb by (destruct Hreq as [->|Hn]; [reflexivity|];
                   rewrite (bool_decide_eq_true_2 _ Hn); apply orb_true_r).
  all: destruct (config_json env) as [c|]; simpl in *; rewrite ?Hb, ?Hu; simpl.
  all: intros E; run; reflexivity.
Qed.

End Configuration.

(** ** The scenarios, on the sample data *)

Example scenario_exact : resolve false (mkVersion [1; 0]) [rel_old; rel_new] = Some rel_new.
Proof. reflexivity. Qed.

Example scenario_no_match : resolve false (mkVersion [1; 1]) [rel_old; rel_new] = None.
Proof. reflexivity. Qed.

Example scenario_downgrade : resolve true (mkVersion [1; 1]) [rel_old; rel_new] = Some rel_new.
Proof. reflexivity. Qed.

Example scenario_fallback : resolve true (mkVersion [0; 18]) [rel_old; rel_new] = Some rel_old.
Proof. reflexivity. Qed.

(** Trailing zeros do not count: 1.0 and 1.0.0 are the same version. *)
Example version_trailing_zero : version_eqb (mkVersion [1; 0; 0]) (mkVersion [1; 0]) = true.
Proof. reflexivity. Qed.

Example sample_infos :
  outcome (get_mod_infos sample_env (mkMod "m" true))
          (sample_world false files_current [base_entry]) = Return (Some infos_m).
Proof. reflexivity. Qed.

(** C1 on the scenario. *)
Lemma resolve_exact_match_witness :
  In rel_new [rel_old; rel_new] /\
  version_eqb (info_json_factorio_version rel_new) (mkVersion [1; 0]) = true.
Proof.
  pose proof (resolve_exact_match [rel_old; rel_new] (mkVersion [1; 0])) as W.
  change (resolve false (mkVersion [1; 0]) [rel_old; rel_new]) with (Some rel_new) in W.
  split; [exact (proj1 W)|exact (proj1 (proj2 W))].
Defined.

(** C2 on the scenario. *)
Lemma resolve_downgrade_most_recent_witness :
  datetime_ltb (released_at rel_new) (released_at rel_old) = false.
Proof.
  pose proof (proj2 (resolve_downgrade_most_recent [rel_old; rel_new] (mkVersion [1; 1]))) as W.
  change (resolve true (mkVersion [1; 1]) [rel_old; rel_new]) with (Some rel_new) in W.
  apply (proj2 (proj2 W) rel_old); [now left|reflexivity].
Defined.

(** ** C3: a failed metadata fetch ends the update

    The manifest lists ["gone"], which the portal does not know, before
    ["m"]: the run dies on ["gone"] with a [TypeError], ["m"] is never
    fetched and its new release never downloaded.  A mod whose metadata
    has no ['releases'] key kills the update and the install with a
    [KeyError]. *)
Theorem update_fetch_failure_is_fatal :
  let mods := [base_entry; mkMod "gone" true; mkMod "m" true] in
  let w0 := sample_world false files_stale mods in
  let update := @update_mods sample_hashlib sample_env false in
  outcome update w0 = Uncaught TypeError /\
  http_log (after update w0) = [GetModInfos "gone"] /\
  stdout (after update w0) = [MsgErrorGetting "gone"] /\
  mods_folder (after update w0) !! "m_2.0.0.zip" = None /\
  outcome (@update_mods sample_hashlib sample_env false)
          (sample_world false files_stale [base_entry; mkMod "bare" true; mkMod "m" true])
    = Uncaught KeyError /\
  outcome (@install_mod sample_hashlib sample_env "bare")
          (sample_world false files_stale [base_entry]) = Uncaught KeyError /\
  (* without the unknown mod the same run updates "m" *)
  outcome update (sample_world false files_stale [base_entry; mkMod "m" true]) = Return tt /\
  mods_folder (after update (sample_world false files_stale [base_entry; mkMod "m" true]))
    !! "m_2.0.0.zip" = Some zip_new.
Proof. vm_compute. repeat split. Qed.

(** ** C9: a missing token is not detected

    [-U -u user] with no token: [load_config] accepts the configuration
    (it tests the user name twice), the update runs, deletes the old
    release file, sends the download request with an empty token and only
    then dies on the answer. *)
Theorem missing_token_is_not_detected :
  let w0 := start_world files_stale [base_entry; mkMod "m" true] in
  let run := @main sample_hashlib sample_env 4 args_update_no_token in
  arg_token args_update_no_token = None /\
  config_json sample_env = None /\
  outcome (load_config sample_env args_update_no_token) w0 = Return true /\
  token (glob (after (load_config sample_env args_update_no_token) w0)) = Some "" /\
  outcome run w0 = SystemExit 1 /\
  mods_folder w0 !! "m_1.0.0.zip" = Some zip_old /\
  mods_folder (after run w0) !! "m_1.0.0.zip" = None /\
  http_log (after run w0) =
    [GetModInfos "m"; GetArtifact "/download/m/2" (Some "user") (Some "")].
Proof. vm_compute. repeat split. Qed.

(** The same run without a user name is refused before anything
    happens. *)
Example missing_username_is_detected :
  let args :=
    mkArgs (Some "/opt/factorio") None (Some "tok") false None true false false
           None None None false false None false true in
  let w0 := start_world files_stale [base_entry; mkMod "m" true] in
  let run := @main sample_hashlib sample_env 4 args in
  outcome run w0 = SystemExit 1 /\
  mods_folder (after run w0) !! "m_1.0.0.zip" = Some zip_old /\
  http_log (after run w0) = [] /\
  stdout (after run w0) = [MsgNoConfigFile; MsgCredentialsNotSet; MsgFailing].
Proof. vm_compute. repeat split. Qed.

(** ** C4: what has run by the time the download is skipped

    The selected file is on disk and intact.  [install_mod] skips the
    download, after it has rewritten the manifest with a second entry for
    the mod; [update_mods] skips it, after its loop has deleted the old
    release file.  Both effects come before the check and do not depend
    on it. *)
Lemma hash_match_has_side_effects :
  let w0 := sample_world false files_current [base_entry; mkMod "m" true] in
  let install := @install_mod sample_hashlib sample_env "m" in
  let update := @update_mods sample_hashlib sample_env false in
  @file_is_current sample_hashlib w0 (file_name rel_new) (sha1 rel_new) = true /\
  outcome install w0 = Return None /\
  mod_list_json w0 = [base_entry; mkMod "m" true] /\
  mod_list_json (after install w0) = [base_entry; mkMod "m" true; mkMod "m" true] /\
  mod_list_json (after install w0) <> mod_list_json w0 /\
  outcome update w0 = Return tt /\
  http_log (after update w0) = [GetModInfos "m"] /\
  mods_folder w0 !! "m_1.0.0.zip" = Some zip_old /\
  mods_folder (after update w0) !! "m_1.0.0.zip" = None.
Proof. vm_compute. repeat split. discriminate. Qed.

Lemma hash_match_skips_download_witness :
  let w0 := sample_world false files_current [base_entry; mkMod "m" true] in
  outcome (get_mod_infos sample_env (mkMod "m" true)) w0 = Return (Some infos_m) /\
  @file_is_current sample_hashlib w0 (file_name rel_new) (sha1 rel_new) = true /\
  glob (after (@update_mod sample_hashlib sample_env false (mkMod "m" true)) w0) = glob w0 /\
  mods_folder (after (@install_mod sample_hashlib sample_env "m") w0) = mods_folder w0.
Proof.
  pose proof (@hash_match_skips_download sample_hashlib sample_env false (mkMod "m" true)
                (sample_world false files_current [base_entry; mkMod "m" true])
                infos_m rel_new eq_refl eq_refl eq_refl) as W.
  cbv zeta in W.
  destruct W as (_&(_&_&Wg&_)&(_&_&_&Wm&_)).
  split; [reflexivity|]. split; [reflexivity|]. split; [exact Wg|exact Wm].
Defined.

(** ** C5: [install_mod] deletes nothing; a dry run deletes nothing

    Only the old release is on disk.  After the install both release
    files are there; after a dry-run update the old one is still there
    and the new one is not. *)
Lemma install_keeps_superseded_file :
  let w0 := sample_world false files_stale [base_entry] in
  let install := @install_mod sample_hashlib sample_env "m" in
  let dry := sample_world true files_stale [base_entry; mkMod "m" true] in
  outcome install w0 = Return (Some true) /\
  mods_folder (after install w0) !! "m_2.0.0.zip" = Some zip_new /\
  mods_folder (after install w0) !! "m_1.0.0.zip" = Some zip_old /\
  file_name rel_old <> file_name rel_new /\
  outcome (@update_mods sample_hashlib sample_env false) dry = Return tt /\
  mods_folder (after (@update_mods sample_hashlib sample_env false) dry) !! "m_1.0.0.zip"
    = Some zip_old.
Proof. vm_compute. repeat split. discriminate. Qed.

Lemma update_removes_superseded_witness :
  let w0 := sample_world false files_stale [base_entry; mkMod "m" true] in
  let w' := after (@update_mod sample_hashlib sample_env false (mkMod "m" true)) w0 in
  dry_run (glob w0) = false /\
  outcome (get_mod_infos sample_env (mkMod "m" true)) w0 = Return (Some infos_m) /\
  mods_folder w0 !! file_name rel_old = Some zip_old /\
  mods_folder w' !! file_name rel_old = None /\
  is_Some (mods_folder w' !! file_name rel_new).
Proof.
  pose proof (@update_removes_superseded sample_hashlib sample_env false (mkMod "m" true)
                (sample_world false files_stale [base_entry; mkMod "m" true])
                infos_m rel_new eq_refl eq_refl eq_refl eq_refl) as W.
  cbv zeta in W.
  split; [reflexivity|]. split; [reflexivity|]. split; [reflexivity|]. split.
  - apply (proj1 W rel_old); [right; now left|discriminate].
  - apply (proj2 (proj2 W) eq_refl rel_new); [now left|reflexivity].
Defined.

(** ** C6: a mod the portal does not know is not removed

    ["gone"] is in the manifest and the portal answers 404: [remove_mod]
    returns [False], the manifest keeps the entry.  For ["bare"], whose
    JSON has no ['releases'] key, [remove_mod] dies with [KeyError] and
    the manifest keeps the entry too. *)
Lemma remove_unknown_mod_keeps_entry :
  let w0 := sample_world false files_stale [base_entry; mkMod "gone" true] in
  let remove := remove_mod sample_env "gone" in
  status_code (api_mods sample_env "gone") = 404%Z /\
  outcome remove w0 = Return (Some false) /\
  mod_list_json (after remove w0) = [base_entry; mkMod "gone" true] /\
  In (mkMod "gone" true) (mod_list_json (after remove w0)) /\
  has_to_reload (glob (after remove w0)) = false.
Proof. vm_compute. repeat split. right. now left. Qed.

Example remove_mod_without_releases_key :
  let w0 := sample_world false files_stale [base_entry; mkMod "bare" true] in
  let remove := remove_mod sample_env "bare" in
  status_code (api_mods sample_env "bare") = 200%Z /\
  outcome remove w0 = Uncaught KeyError /\
  mod_list_json (after remove w0) = [base_entry; mkMod "bare" true] /\
  mods_folder (after remove w0) = files_stale.
Proof. vm_compute. repeat split. Qed.

Lemma remove_deletes_all_releases_witness :
  let w0 := sample_world false files_current [base_entry; mkMod "m" true; mkMod "m" false] in
  let w' := after (remove_mod sample_env "m") w0 in
  dry_run (glob w0) = false /\
  outcome (get_mod_infos sample_env (mkMod "m" true)) w0 = Return (Some infos_m) /\
  mods_folder w' !! "m_1.0.0.zip" = None /\
  mods_folder w' !! "m_2.0.0.zip" = None /\
  mod_list_json w' = [base_entry].
Proof.
  pose proof (remove_deletes_all_releases sample_env "m"
                (sample_world false files_current
                   [base_entry; mkMod "m" true; mkMod "m" false])
                infos_m eq_refl eq_refl) as W.
  cbv zeta in W.
  split; [reflexivity|]. split; [reflexivity|]. split; [|split].
  - apply (proj1 (proj2 W) rel_old). right. now left.
  - apply (proj1 (proj2 W) rel_new). now left.
  - exact (proj1 (proj2 (proj2 (proj2 W)))).
Defined.

(** ** C7 on the sample: a download without a token *)
Lemma download_wrong_content_type_witness :
  let g := mkGlob false false None (Some (mkVersion [1; 0])) None None
                  (Some "user") (Some "") false None false false in
  let w0 := mkWorld g files_stale [base_entry] [] [] [] in
  dry_run (glob w0) = false /\
  content_type (mods_portal sample_env "/download/m/2" (Some "user") (Some ""))
    = Some "text/html" /\
  outcome (download_mod sample_env "m_2.0.0.zip" "/download/m/2") w0 = SystemExit 1 /\
  mods_folder (after (download_mod sample_env "m_2.0.0.zip" "/download/m/2") w0)
    = mods_folder w0.
Proof.
  pose proof (download_wrong_content_type sample_env "m_2.0.0.zip" "/download/m/2"
                (mkWorld (mkGlob false false None (Some (mkVersion [1; 0])) None None
                                 (Some "user") (Some "") false None false false)
                         files_stale [base_entry] [] [] [])
                eq_refl ltac:(discriminate)) as W.
  cbv zeta in W.
  split; [reflexivity|]. split; [reflexivity|]. split.
  - exact (proj1 W).
  - exact (proj1 (proj2 W)).
Defined.

(** The exit ends the run: with [-U -r m] and a refused download the
    removal that was asked for never starts. *)
Example wrong_content_type_aborts_run :
  let args :=
    mkArgs (Some "/opt/factorio") (Some "user") None false None true false false
           (Some "m") None None false false None false true in
  let w0 := start_world files_stale [base_entry; mkMod "m" true] in
  let run := @main sample_hashlib sample_env 6 args in
  outcome run w0 = SystemExit 1 /\
  mod_list_json (after run w0) = [base_entry; mkMod "m" true] /\
  mods_folder (after run w0) !! "m_2.0.0.zip" = None /\
  stdout (after run w0) =
    [MsgNoConfigFile; MsgNotZip; MsgWrongCredentials; MsgAborting] /\
  restarted (after run w0) = [].
Proof. vm_compute. repeat split. Qed.

(** ** C8 on the sample: [-i m -d] *)
Lemma dry_run_changes_nothing_witness :
  let w0 := start_world files_stale [base_entry] in
  let w' := after (@main sample_hashlib sample_env 4 args_install_dry) w0 in
  arg_dry_run args_install_dry = true /\
  mods_folder w' = mods_folder w0 /\
  mod_list_json w' = mod_list_json w0 /\
  restarted w' = restarted w0.
Proof.
  pose proof (@dry_run_changes_nothing sample_hashlib sample_env 4 args_install_dry
                (start_world files_stale [base_entry]) eq_refl) as W.
  cbv zeta in W.
  split; [reflexivity|].
  destruct W as [(W1&W2&W3&_) _]. now split_and!.
Defined.

Example dry_run_still_fetches :
  let w0 := start_world files_stale [base_entry] in
  let w' := after (@main sample_hashlib sample_env 4 args_install_dry) w0 in
  http_log w' = [GetModInfos "m"] /\
  stdout w' = [MsgNoConfigFile; MsgDryWrite [base_entry; mkMod "m" true];
               MsgDryDownload "/download/m/2";
               MsgInstalled "m" "2.0.0" (mkVersion [1; 0]); MsgBlank;
               MsgNeedRestart; MsgDryReload false].
Proof. vm_compute. repeat split. Qed.

(** ** C10: in dry-run mode the manifest is not written *)
Lemma install_dry_run_leaves_manifest :
  let w0 := sample_world true files_current [base_entry] in
  let install := @install_mod sample_hashlib sample_env "m" in
  resolve false (mkVersion [1; 0]) [rel_old; rel_new] = Some rel_new /\
  outcome install w0 = Return None /\
  mod_list_json (after install w0) = [base_entry] /\
  ~ In (mkMod "m" true) (mod_list_json (after install w0)).
Proof. vm_compute. repeat split. intros [E|[]]. discriminate E. Qed.

Lemma install_registers_before_check_witness :
  let w0 := sample_world false files_current [base_entry; mkMod "m" true] in
  let w' := after (@install_mod sample_hashlib sample_env "m") w0 in
  dry_run (glob w0) = false /\
  outcome (get_mod_infos sample_env (mkMod "m" true)) w0 = Return (Some infos_m) /\
  @file_is_current sample_hashlib w0 (file_name rel_new) (sha1 rel_new) = true /\
  mod_list_json w' = [base_entry; mkMod "m" true; mkMod "m" true] /\
  outcome (@install_mod sample_hashlib sample_env "m") w0 = Return None.
Proof.
  pose proof (@install_registers_before_check sample_hashlib sample_env "m"
                (sample_world false files_current [base_entry; mkMod "m" true])
                infos_m rel_new eq_refl eq_refl eq_refl) as W.
  cbv zeta in W.
  split; [reflexivity|]. split; [reflexivity|]. split; [reflexivity|]. split.
  - exact (proj1 W).
  - exact (proj1 (proj2 W eq_refl)).
Defined.

(** * Further properties of the script *)

(** ** The ordering of releases *)

(** X1: [sorted(..., reverse=True)] on the releases, as modelled, is the
    stable descending sort: a permutation of its input, ordered from the
    most recent release to the oldest, and releases with the same
    timestamp keep the order the portal gave them. *)
Theorem sorted_releases_stable_sort (l : list Release) :
  Permutation l (sorted_releases l) /\
  StronglySorted more_recent_or_same (sorted_releases l) /\
  forall d : datetime,
    List.filter (fun r => bool_decide (released_at r = d)) (sorted_releases l) =
    List.filter (fun r => bool_decide (released_at r = d)) l.
Proof.
  split; [apply sorted_releases_perm|].
  split; [apply sorted_releases_sorted|].
  intros d. apply sorted_releases_stable.
Qed.

Lemma version_eqb_leb (a b : Version) : version_eqb a b = true -> version_leb a b = true.
Proof.
  unfold version_eqb, version_leb, tuple_eqb, tuple_leb.
  now destruct (tuple_compare _ _).
Qed.

(** X2: a release that is selected without [--downgrade] is still a
    candidate with it: the downgrade resolution selects a release too,
    one that is at least as recent (and that may be a release for an older
    host version). *)
Theorem downgrade_keeps_a_match (rels : list Release) (target : Version) (r : Release) :
  resolve false target rels = Some r ->
  exists r',
    resolve true target rels = Some r' /\
    In r' rels /\
    datetime_leb (released_at r) (released_at r') = true.
Proof.
  unfold resolve, selected_release, filtered_releases. intros Hr.
  apply head_In, List.filter_In in Hr. destruct Hr as [Hin Heq].
  apply version_eqb_leb in Heq.
  set (compatible := fun r => version_leb (info_json_factorio_version r) target) in *.
  assert (Hc : In r (List.filter compatible (sorted_releases rels)))
    by (apply List.filter_In; split; assumption).
  destruct (List.filter compatible (sorted_releases rels)) as [|r' f] eqn:F;
    [destruct Hc|].
  exists r'. split; [reflexivity|].
  assert (Hin' : In r' (List.filter compatible (sorted_releases rels)))
    by (rewrite F; now left).
  apply List.filter_In in Hin'. destruct Hin' as [Hin' _].
  split; [now apply sorted_releases_In|].
  assert (Hs : StronglySorted more_recent_or_same (r' :: f)).
  { rewrite <- F. apply filter_sorted, sorted_releases_sorted. }
  pose proof (head_sorted_max (r' :: f) r' r Hs eq_refl Hc) as Hmax.
  unfold datetime_ltb in Hmax. now apply negb_false_iff in Hmax.
Qed.

Lemma downgrade_keeps_a_match_witness :
  resolve false (mkVersion [1; 0]) [rel_old; rel_new; rel_backport] = Some rel_new /\
  exists r', resolve true (mkVersion [1; 0]) [rel_old; rel_new; rel_backport] = Some r' /\
             In r' [rel_old; rel_new; rel_backport] /\
             datetime_leb (released_at rel_new) (released_at r') = true.
Proof.
  split; [reflexivity|].
  exact (downgrade_keeps_a_match [rel_old; rel_new; rel_backport] (mkVersion [1; 0])
           rel_new eq_refl).
Defined.

(** With [--downgrade] the later release for the older host wins over
    the release for the host itself. *)
Example downgrade_prefers_later_release :
  resolve true (mkVersion [1; 0]) [rel_old; rel_new; rel_backport] = Some rel_backport.
Proof. reflexivity. Qed.

(** ** Hashing a file *)

(** X3: for a hasher that is incremental (feeding two blocks one after
    the other is feeding their concatenation, feeding nothing changes
    nothing), reading the file in blocks of 65536 bytes until an empty
    read gives the digest of the whole content, whatever the size of the
    file. *)
Theorem get_file_sha1_streams_whole_file `{Hashlib} (file : bytes) :
  (forall h a b, hasher_update (hasher_update h a) b = hasher_update h (a ++ b)%list) ->
  (forall h, hasher_update h [] = h) ->
  get_file_sha1 file = hexdigest (hasher_update hashlib_sha1 file).
Proof. intros Happ Hnil. now apply get_file_sha1_whole. Qed.

Lemma get_file_sha1_streams_whole_file_witness :
  (forall h a b : bytes, ((h ++ a) ++ b)%list = (h ++ (a ++ b))%list) /\
  (forall h : bytes, (h ++ [])%list = h) /\
  @get_file_sha1 sample_hashlib zip_new = "bb".
Proof.
  split; [intros h a b; symmetry; apply app_assoc|].
  split; [intros h; apply app_nil_r|].
  exact (@get_file_sha1_streams_whole_file sample_hashlib zip_new
           (fun h a b => eq_sym (app_assoc h a b)) (fun h => app_nil_r h)).
Defined.

(** ** The manifest *)

Lemma read_mods_list_true_run (w : World) :
  exists out,
    read_mods_list true w =
    (match mod_list_json w with
     | [] => Uncaught IndexError
     | _ :: rest => Return rest
     end, with_stdout out w).
Proof.
  unfold read_mods_list.
  destruct (debug_run MsgParsing w) as [o E]. bstep E.
  exists o. unfold bind, get_world, ret, raise. wsimpl.
  now destruct (mod_list_json w).
Qed.

(** X4: [read_mods_list()] drops the first entry of the manifest,
    whatever its name, and raises [IndexError] on an empty ['mods'] array:
    an update then dies before any request, having changed nothing. *)
Theorem update_mods_skips_first_entry `{Hashlib} (env : Env) (enabled_only : bool) (w : World) :
  (mod_list_json w = [] ->
   outcome (update_mods env enabled_only) w = Uncaught IndexError /\
   only_stdout w (after (update_mods env enabled_only) w)) /\
  (forall first rest, mod_list_json w = first :: rest ->
   outcome (read_mods_list true) w = Return rest /\
   exists out,
     update_mods env enabled_only w =
     for_each rest (update_mod env enabled_only) (with_stdout out w)).
Proof.
  split.
  - intros He. unfold outcome, after, update_mods. step.
    match goal with |- context [bind (read_mods_list true) _ ?w1] =>
      destruct (read_mods_list_true_run w1) as [o' E]; bstep E
    end.
    wsimpl. rewrite He. wsimpl. split; [reflexivity|]. now split_and!.
  - intros first rest He. split.
    + unfold outcome. destruct (read_mods_list_true_run w) as [o E].
      rewrite E. wsimpl. now rewrite He.
    + unfold update_mods. step.
      match goal with |- context [bind (read_mods_list true) _ ?w1] =>
        destruct (read_mods_list_true_run w1) as [o' E]; bstep E
      end.
      wsimpl. rewrite He. eexists. reflexivity.
Qed.

Lemma update_mods_skips_first_entry_witness :
  let w0 := sample_world false files_stale [mkMod "m" true] in
  mod_list_json w0 = [mkMod "m" true] /\
  outcome (read_mods_list true) w0 = Return [] /\
  http_log (after (@update_mods sample_hashlib sample_env false) w0) = [].
Proof.
  pose proof (@update_mods_skips_first_entry sample_hashlib sample_env false
                (sample_world false files_stale [mkMod "m" true])) as W.
  destruct W as [_ W]. destruct (W (mkMod "m" true) [] eq_refl) as [W1 [out W2]].
  split; [reflexivity|]. split; [exact W1|].
  unfold after. rewrite W2. reflexivity.
Defined.

(** ** Enabling and disabling *)

Lemma update_state_mods_run (names : list string) (b : bool) (w : World) :
  exists out,
    update_state_mods names b w =
    (Return tt,
     mkWorld (glob_has_to_reload (glob w)) (mods_folder w)
       (if dry_run (glob w) then mod_list_json w
        else map (fun e => if bool_decide (name e ∈ names)
                           then mkMod (name e) b else e) (mod_list_json w))
       out (http_log w) (restarted w)).
Proof.
  unfold update_state_mods. step. step. step.
  rewrite set_has_to_reload_run. wsimpl. eexists. reflexivity.
Qed.

(** X6: outside dry-run mode [update_state_mods] keeps the entries of
    the manifest in place and under their names, gives every entry whose
    name is listed the requested state, leaves the other entries as they
    are, and raises the restart flag whether or not a name matched; the
    mods folder, the network and the service are not touched. *)
Theorem update_state_mods_sets_flags (names : list string) (b : bool) (w : World) :
  dry_run (glob w) = false ->
  let w' := after (update_state_mods names b) w in
  outcome (update_state_mods names b) w = Return tt /\
  map name (mod_list_json w') = map name (mod_list_json w) /\
  (forall e, In e (mod_list_json w') -> name e ∈ names -> enabled e = b) /\
  (forall i e, mod_list_json w !! i = Some e -> name e ∉ names ->
               mod_list_json w' !! i = Some e) /\
  has_to_reload (glob w') = true /\
  manifest_only w w'.
Proof.
  intros D w'. subst w'.
  destruct (update_state_mods_run names b w) as [out E].
  unfold outcome, after. rewrite E. wsimpl. rewrite D.
  split_and!; try reflexivity.
  - rewrite List.map_map. apply List.map_ext. intros e. now case_bool_decide.
  - intros e He Hn. apply in_map_iff in He. destruct He as (e0&<-&_).
    case_bool_decide; [reflexivity|]. simpl in Hn. tauto.
  - intros i e Hi Hn. rewrite list_lookup_fmap, Hi. simpl.
    now rewrite bool_decide_eq_false_2.
  - now split_and!.
Qed.

Lemma update_state_mods_sets_flags_witness :
  let w0 := sample_world false files_stale [base_entry; mkMod "m" true; mkMod "n" true] in
  let w' := after (update_state_mods ["m"; "absent"] false) w0 in
  dry_run (glob w0) = false /\
  mod_list_json w' = [base_entry; mkMod "m" false; mkMod "n" true] /\
  has_to_reload (glob w') = true.
Proof.
  pose proof (update_state_mods_sets_flags ["m"; "absent"] false
                (sample_world false files_stale
                   [base_entry; mkMod "m" true; mkMod "n" true]) eq_refl) as W.
  cbv zeta in W. destruct W as (_&_&_&_&W&_).
  split; [reflexivity|]. split; [reflexivity|exact W].
Defined.



(** ** What a run restarts, and when *)

#[local] Instance run_frame_preorder : PreOrder run_frame.
Proof.
  split.
  - intros w. now split.
  - intros a b c [? ?] [? ?]. split; [congruence|auto].
Qed.

#[local] Instance manifest_only_preorder : PreOrder manifest_only.
Proof.
  split.
  - intros w. now split_and!.
  - intros a b c (?&?&?) (?&?&?). split_and!; congruence.
Qed.

#[local] Instance keeps_files_preorder : PreOrder keeps_files.
Proof. split; [intros w p; auto|intros a b c Hab Hbc p Hp; auto]. Qed.

Lemma only_stdout_run_frame (w w' : World) : only_stdout w w' -> run_frame w w'.
Proof. intros (G&_&_&_&?). split; [assumption|now rewrite G]. Qed.

Lemma writes_only_run_frame (p : string) (w w' : World) :
  writes_only p w w' -> run_frame w w'.
Proof. intros (G&_&?&_&_). split; [assumption|now rewrite G]. Qed.

Lemma only_stdout_manifest_only (w w' : World) : only_stdout w w' -> manifest_only w w'.
Proof. intros (_&?&_&?&?). now split_and!. Qed.

Lemma no_io_manifest_only (w w' : World) : no_io w w' -> manifest_only w w'.
Proof. intros (?&_&?&?). now split_and!. Qed.

Lemma only_stdout_keeps_files (w w' : World) : only_stdout w w' -> keeps_files w w'.
Proof. intros (_&E&_) p. now rewrite E. Qed.

Lemma writes_only_keeps_files (p : string) (w w' : World) :
  writes_only p w w' -> keeps_files w w'.
Proof.
  intros (_&_&_&Hq&Hp) q Hs. destruct (decide (q = p)) as [->|Hne]; [auto|].
  now rewrite Hq.
Qed.

#[export] Hint Extern 4 (preserves run_frame _) =>
  (apply (preserves_weaken _ _ _ only_stdout_run_frame)) : frames.
#[export] Hint Extern 4 (preserves manifest_only _) =>
  (apply (preserves_weaken _ _ _ only_stdout_manifest_only)) : frames.
#[export] Hint Extern 4 (preserves keeps_files _) =>
  (apply (preserves_weaken _ _ _ only_stdout_keeps_files)) : frames.

Lemma find_version_only_stdout (env : Env) : preserves only_stdout (find_version env).
Proof. unfold find_version. frame. Qed.

Lemma write_mods_list_frames (l : list ModEntry) :
  preserves run_frame (write_mods_list l) /\
  preserves manifest_only (write_mods_list l) /\
  preserves keeps_files (write_mods_list l).
Proof.
  split_and!; intros w; unfold after;
    destruct (write_mods_list_run l w) as [o E]; rewrite E;
    unfold run_frame, manifest_only, keeps_files; wsimpl; auto.
Qed.

Lemma set_has_to_reload_frames :
  preserves run_frame set_has_to_reload /\
  preserves manifest_only set_has_to_reload /\
  preserves keeps_files set_has_to_reload.
Proof.
  split_and!; intros w; unfold after; rewrite set_has_to_reload_run;
    unfold run_frame, manifest_only, keeps_files; wsimpl; auto.
Qed.

Lemma remove_file_run_frame (p : string) : preserves run_frame (remove_file p).
Proof.
  intros w. unfold after. destruct (remove_file_run p w) as [o E]. rewrite E.
  unfold run_frame. wsimpl. auto.
Qed.

Lemma get_mod_infos_frames (env : Env) (m : ModEntry) :
  preserves run_frame (get_mod_infos env m) /\
  preserves keeps_files (get_mod_infos env m).
Proof.
  split; intros w; destruct (get_mod_infos_world env m w) as [o E]; rewrite E;
    unfold run_frame, keeps_files; wsimpl; auto.
Qed.

Lemma download_mod_frames (env : Env) (p url : string) :
  preserves run_frame (download_mod env p url) /\
  preserves keeps_files (download_mod env p url).
Proof.
  split.
  - apply (preserves_weaken _ _ _ (writes_only_run_frame p)), download_mod_writes_only.
  - apply (preserves_weaken _ _ _ (writes_only_keeps_files p)), download_mod_writes_only.
Qed.

(** The setters of [load_config] leave the restart flag alone. *)
Lemma modify_glob_run_frame (f : Glob -> Glob) :
  (forall g, has_to_reload (f g) = has_to_reload g) ->
  preserves run_frame (modify_glob f).
Proof.
  intros Hf w. unfold after, modify_glob, bind, get_glob, put_glob, run_frame.
  wsimpl. rewrite Hf. auto.
Qed.

#[export] Hint Resolve find_version_only_stdout remove_file_run_frame : frames.
#[export] Hint Extern 1 (preserves run_frame (write_mods_list _)) =>
  (apply write_mods_list_frames) : frames.
#[export] Hint Extern 1 (preserves manifest_only (write_mods_list _)) =>
  (apply write_mods_list_frames) : frames.
#[export] Hint Extern 1 (preserves keeps_files (write_mods_list _)) =>
  (apply write_mods_list_frames) : frames.
#[export] Hint Extern 1 (preserves run_frame set_has_to_reload) =>
  (apply set_has_to_reload_frames) : frames.
#[export] Hint Extern 1 (preserves manifest_only set_has_to_reload) =>
  (apply set_has_to_reload_frames) : frames.
#[export] Hint Extern 1 (preserves keeps_files set_has_to_reload) =>
  (apply set_has_to_reload_frames) : frames.
#[export] Hint Extern 1 (preserves run_frame (get_mod_infos _ _)) =>
  (apply get_mod_infos_frames) : frames.
#[export] Hint Extern 1 (preserves keeps_files (get_mod_infos _ _)) =>
  (apply get_mod_infos_frames) : frames.
#[export] Hint Extern 1 (preserves run_frame (download_mod _ _ _)) =>
  (apply download_mod_frames) : frames.
#[export] Hint Extern 1 (preserves keeps_files (download_mod _ _ _)) =>
  (apply download_mod_frames) : frames.
#[export] Hint Extern 1 (preserves run_frame (modify_glob _)) =>
  (apply modify_glob_run_frame; reflexivity) : frames.

Section RunFrame.

Context `{Hashlib} (env : Env).

Lemma update_mod_run_frame (eo : bool) (m : ModEntry) :
  preserves run_frame (update_mod env eo m).
Proof. unfold update_mod. frame. Qed.

Lemma update_mods_run_frame (eo : bool) : preserves run_frame (update_mods env eo).
Proof. pose proof update_mod_run_frame. unfold update_mods. frame. Qed.

Lemma install_mod_run_frame (n : string) : preserves run_frame (install_mod env n).
Proof. unfold install_mod. frame. Qed.

Lemma remove_mod_run_frame (n : string) : preserves run_frame (remove_mod env n).
Proof. unfold remove_mod. frame. Qed.

Lemma update_state_mods_run_frame (l : list string) (b : bool) :
  preserves run_frame (update_state_mods l b).
Proof. unfold update_state_mods. frame. Qed.

(** X8: no operation restarts the service, and none lowers the restart
    flag once it is raised: this holds for the update, the install, the
    removal and the enabling or disabling, however they end. *)
Theorem operations_keep_restart_flag (w : World) :
  (forall enabled_only, run_frame w (after (update_mods env enabled_only) w)) /\
  (forall mod_name, run_frame w (after (install_mod env mod_name) w)) /\
  (forall mod_name, run_frame w (after (remove_mod env mod_name) w)) /\
  (forall names b, run_frame w (after (update_state_mods names b) w)).
Proof.
  split_and!.
  - intros eo. apply update_mods_run_frame.
  - intros n. apply install_mod_run_frame.
  - intros n. apply remove_mod_run_frame.
  - intros names b. apply update_state_mods_run_frame.
Qed.

(** X9: [install_mod] never deletes a file of the mods folder: every
    file that was there is still there afterwards, however the install
    ends. *)
Theorem install_mod_deletes_nothing (mod_name : string) (w : World) (p : string) :
  is_Some (mods_folder w !! p) ->
  is_Some (mods_folder (after (install_mod env mod_name) w) !! p).
Proof.
  assert (preserves keeps_files (install_mod env mod_name)) as P
      by (unfold install_mod; frame).
  apply P.
Qed.

End RunFrame.

Lemma install_mod_deletes_nothing_witness :
  let w0 := sample_world false files_stale [base_entry] in
  is_Some (mods_folder w0 !! "m_1.0.0.zip") /\
  is_Some (mods_folder (after (@install_mod sample_hashlib sample_env "m") w0)
             !! "m_1.0.0.zip").
Proof.
  assert (is_Some (mods_folder (sample_world false files_stale [base_entry])
                     !! "m_1.0.0.zip")) as Hs by (vm_compute; eauto).
  split; [exact Hs|].
  exact (@install_mod_deletes_nothing sample_hashlib sample_env "m"
           (sample_world false files_stale [base_entry]) "m_1.0.0.zip" Hs).
Defined.

(** ** The whole run *)

Lemma never_returns_exit {A} (c : Z) : never_returns (@exit A c).
Proof. intros w a. discriminate. Qed.

Lemma never_returns_bind_r {A B} (m : M A) (k : A -> M B) :
  (forall a, never_returns (k a)) -> never_returns (bind m k).
Proof.
  intros Hk w b. unfold outcome, bind.
  destruct (m w) as [[a|c|e] w1] eqn:E; simpl; try discriminate.
  apply (Hk a w1 b).
Qed.

Lemma never_returns_bind_l {A B} (m : M A) (k : A -> M B) :
  never_returns m -> never_returns (bind m k).
Proof.
  intros Hm w b. specialize (Hm w). unfold outcome, bind in *.
  destruct (m w) as [[a|c|e] w1]; simpl in *; try discriminate.
  now destruct (Hm a).
Qed.

Lemma preserves_bind_never {A B} (R : World -> World -> Prop) (m : M A) (k : A -> M B) :
  never_returns m -> preserves R m -> preserves R (bind m k).
Proof.
  intros Hn Hm w. specialize (Hn w). specialize (Hm w). unfold outcome, after, bind in *.
  destruct (m w) as [[a|c|e] w1]; simpl in *; auto.
  now destruct (Hn a).
Qed.

Lemma update_state_mods_manifest_only (names : list string) (b : bool) :
  preserves manifest_only (update_state_mods names b).
Proof. unfold update_state_mods. frame. Qed.

Lemma load_config_manifest_only (env : Env) (args : Args) :
  preserves manifest_only (load_config env args).
Proof. apply (preserves_weaken _ _ _ no_io_manifest_only), load_config_no_io. Qed.

#[export] Hint Resolve update_state_mods_manifest_only load_config_manifest_only : frames.

Lemma preserves_bind_restart {A B} (m : M A) (k : A -> M B) :
  preserves run_frame m ->
  (forall a, preserves restarted_at_most_once (k a)) ->
  preserves restarted_at_most_once (bind m k).
Proof.
  intros Hm Hk w. specialize (Hm w). unfold after, bind in *.
  destruct (m w) as [[a|c|e] w1]; simpl in *;
    try (left; apply Hm).
  destruct Hm as [Hm _]. specialize (Hk a w1). unfold after in Hk.
  unfold restarted_at_most_once in *. now rewrite <- Hm.
Qed.

Lemma reload_and_finish_restarts_at_most_once :
  preserves restarted_at_most_once reload_and_finish.
Proof.
  intros w. open_world w.
  unfold after, reload_and_finish, os_system_restart, bind, get_glob, print, exit,
    restarted_at_most_once.
  simpl. repeat (match goal with |- context [if ?b then _ else _] => destruct b end; simpl);
    auto.
Qed.

Section WholeRun.

Context `{Hashlib} (env : Env).

Lemma load_config_run_frame (args : Args) : preserves run_frame (load_config env args).
Proof. unfold load_config. frame. Qed.

(** X10: with [-l] a run never reaches the update, the install or the
    removal: it ends in an exit (or an exception), having sent no request,
    left the mods folder as it was and restarted nothing.  Only the
    enabling and disabling, which run before the listing, can have
    changed the manifest. *)
Theorem list_mods_ends_the_run (argc : nat) (args : Args) (w : World) :
  list_mods args = true ->
  manifest_only w (after (main env argc args) w) /\
  forall a, outcome (main env argc args) w <> Return a.
Proof.
  intros Hl.
  assert (Hlist : never_returns
                    (when true
                       (let* mods_list := read_mods_list true in
                        display_mods_list mods_list >> @exit unit 0))).
  { simpl. apply never_returns_bind_r. intros l. apply never_returns_bind_r.
    intros _. apply never_returns_exit. }
  assert (Plist : preserves manifest_only
                    (when true
                       (let* mods_list := read_mods_list true in
                        display_mods_list mods_list >> @exit unit 0)))
    by frame.
  split.
  - assert (preserves manifest_only (main env argc args)) as P; [|apply P].
    unfold main. rewrite Hl.
    destruct (argc =? 1)%nat; [frame|].
    apply preserves_bind; [typeclasses eauto|eauto with frames|intros ok].
    destruct (negb ok); [frame|].
    apply preserves_bind; [typeclasses eauto|frame|intros _].
    apply preserves_bind; [typeclasses eauto|frame|intros _].
    apply preserves_bind; [typeclasses eauto|frame|intros _].
    apply preserves_bind_never; assumption.
  - assert (never_returns (main env argc args)) as P; [|apply P].
    unfold main. rewrite Hl.
    destruct (argc =? 1)%nat.
    { apply never_returns_bind_r. intros _. apply never_returns_exit. }
    apply never_returns_bind_r. intros ok.
    destruct (negb ok).
    { apply never_returns_bind_r. intros _. apply never_returns_exit. }
    apply never_returns_bind_r. intros _.
    apply never_returns_bind_r. intros _.
    apply never_returns_bind_r. intros _.
    apply never_returns_bind_l. exact Hlist.
Qed.

(** X11: a run restarts the service at most once, at its very end, and
    only when it is no dry run, [--reload] is in force and an operation
    has raised the restart flag; the service restarted is the configured
    one. *)
Theorem main_restarts_at_most_once (argc : nat) (args : Args) (w : World) :
  restarted_at_most_once w (after (main env argc args) w).
Proof.
  assert (preserves restarted_at_most_once (main env argc args)) as P; [|apply P].
  pose proof (update_mods_run_frame env) as Pu.
  pose proof (install_mod_run_frame env) as Pi.
  pose proof (remove_mod_run_frame env) as Pr.
  pose proof (update_state_mods_run_frame) as Ps.
  unfold main.
  destruct (argc =? 1)%nat.
  { intros w0. left. reflexivity. }
  apply preserves_bind_restart; [apply load_config_run_frame|intros ok].
  destruct (negb ok).
  { intros w0. left. reflexivity. }
  repeat (apply preserves_bind_restart; [frame|intros _]).
  apply reload_and_finish_restarts_at_most_once.
Qed.

End WholeRun.

(** ** The configuration *)

Section Configured.

Context `{Hashlib} (env : Env).

(** X12: when [load_config] accepts the configuration, the command
    line has won over [config.json] for the user name and the token, the
    two boolean switches are the disjunction of both sources, dry-run comes
    from the command line only, the paths are derived from the Factorio
    path, the host version is the one the binary reports, the restart flag
    is as before, and a restart that is asked for has a service name. *)
Theorem load_config_accepts (args : Args) (w w' : World) :
  load_config env args w = (Return true, w') ->
  let config := default empty_config (config_json env) in
  exists path,
    factorio_path (glob w') = Some path /\
    path = (if truthy (arg_factorio_path args)
            then abspath env (default "" (arg_factorio_path args))
            else default "" (cfg_factorio_path config)) /\
    mods_folder_path (glob w') = Some (path_join path "mods") /\
    mods_list_path (glob w') = Some (path_join (path_join path "mods") "mod-list.json") /\
    factorio_version (glob w') = binary_version env (path_join path "bin/x64/factorio") /\
    username (glob w') =
      Some (py_or (arg_username args) (default "" (cfg_username config))) /\
    token (glob w') = Some (py_or (arg_token args) (default "" (cfg_token config))) /\
    dry_run (glob w') = arg_dry_run args /\
    verbose (glob w') = arg_verbose args || default false (cfg_verbose config) /\
    should_downgrade (glob w') =
      arg_should_downgrade args || default false (cfg_should_downgrade config) /\
    should_reload (glob w') =
      arg_should_reload args || default false (cfg_should_reload config) /\
    (should_reload (glob w') = true -> service_name (glob w') <> None) /\
    has_to_reload (glob w') = has_to_reload (glob w).
Proof.
  open_world w. destruct v.
  all: unfold load_config, find_version, debug, modify_glob, bind, get_glob, put_glob,
         print, ret, exit; simpl.
  all: destruct (config_json env) as [config|]; simpl.
  all: intros E; run.
  all: eexists; split_and!; try reflexivity; simpl.
  all: try congruence.
  all: intros Hr Hn; rewrite ?Hr, ?Hn in *; simpl in *;
    repeat match goal with
           | H : bool_decide _ = false |- _ => apply bool_decide_eq_false in H
           end;
    congruence.
Qed.

(** X13: a restart asked for, on the command line or in [config.json],
    without a service name in either place ends the run with status 2
    before anything else is looked at. *)
Theorem reload_needs_service_name (args : Args) (w : World) :
  arg_should_reload args = true \/
  (exists c, config_json env = Some c /\ cfg_should_reload c = Some true) ->
  truthy (arg_service_name args) = false ->
  (forall c, config_json env = Some c -> cfg_service_name c = None) ->
  outcome (load_config env args) w = SystemExit 2 /\
  no_io w (after (load_config env args) w) /\
  forall argc, argc <> 1%nat -> outcome (main env argc args) w = SystemExit 2.
Proof.
  intros Hr Hs Hc.
  assert (E : exists w1, load_config env args w = (SystemExit 2, w1)).
  { open_world w. destruct v.
    all: unfold load_config, debug, modify_glob, bind, get_glob, put_glob, print, ret, exit;
      simpl.
    all: rewrite Hs.
    all: destruct (config_json env) as [c|] eqn:Ec; simpl.
    all: try rewrite (Hc c eq_refl).
    all: destruct Hr as [->|(c'&Hc'&Hr)]; simpl; try discriminate.
    all: try (injection Hc' as <-; rewrite Hr; simpl; destruct (arg_should_reload args)).
    all: simpl; eexists; reflexivity. }
  destruct E as [w1 E].
  pose proof (load_config_no_io env args w) as Hio.
  unfold outcome, after in *. rewrite E in *. simpl.
  split_and!; auto.
  intros argc Hargc. apply Nat.eqb_neq in Hargc.
  unfold main. rewrite Hargc. now bstep E.
Qed.

(** X14: when [git] cannot be run and the self-update check is not
    disabled, a run whose configuration is accepted dies with an uncaught
    exception right after [load_config]: nothing is listed, updated,
    installed or removed. *)
Theorem missing_git_ends_the_run (argc : nat) (args : Args) (w : World) :
  argc <> 1%nat ->
  outcome (load_config env args) w = Return true ->
  disable_mod_manager_update args = false ->
  git_status env = GitNotInstalled ->
  outcome (main env argc args) w = Uncaught OSError /\
  no_io w (after (main env argc args) w).
Proof.
  intros Hargc Hl Hd Hg. apply Nat.eqb_neq in Hargc.
  pose proof (load_config_no_io env args w) as Hio.
  unfold outcome, after, main in *. rewrite Hargc, Hd.
  rewrite (bind_step _ _ _ _ _ (run_pair (load_config env args) w)).
  unfold outcome, after. rewrite Hl. cbv beta iota. simpl negb. cbv iota.
  unfold when. unfold check_mod_manager_update. rewrite Hg.
  unfold bind at 1. unfold raise. cbv beta iota.
  split; [reflexivity|exact Hio].
Qed.

End Configured.

(** ** Downloads that succeed *)

Lemma write_chunks_run (p : string) (total : Z) (cs : list bytes) :
  total <> 0%Z ->
  forall (w : World) (acc : bytes),
    mods_folder w !! p = Some acc ->
    for_each cs (fun chunk =>
                   fd_write p chunk >>
                   if (total =? 0)%Z then raise ZeroDivisionError else ret tt) w =
    (Return tt, with_mods_folder (<[p := (acc ++ concat cs)%list]> (mods_folder w)) w).
Proof.
  intros Ht. apply Z.eqb_neq in Ht.
  assert (forall c w,
             (fd_write p c >>
              if (total =? 0)%Z then raise ZeroDivisionError else ret tt) w =
             (Return tt,
              with_mods_folder
                (<[p := (default [] (mods_folder w !! p) ++ c)%list]> (mods_folder w)) w))
    as Hb by (intros c w; unfold bind, fd_write; now rewrite Ht).
  induction cs as [|c cs IH]; intros w acc Hacc.
  - simpl. rewrite app_nil_r, insert_id by exact Hacc. unfold ret. now destruct w.
  - cbn [for_each]. bstep (Hb c w).
    rewrite (IH _ (acc ++ c)%list) by (wsimpl; rewrite lookup_insert_eq;
        exact (f_equal (fun o => Some (default [] o ++ c)%list) Hacc)).
    wsimpl. rewrite insert_insert_eq. cbn [concat]. rewrite app_assoc.
    now destruct w.
Qed.

Lemma download_mod_success_run (env : Env) (p url : string) (w : World) :
  let r := mods_portal env url (username (glob w)) (token (glob w)) in
  dry_run (glob w) = false ->
  content_type r = Some "application/zip" ->
  content_length r <> Some 0%Z ->
  download_mod env p url w =
  (Return tt,
   mkWorld (glob w) (<[p := content r]> (mods_folder w)) (mod_list_json w)
     (stdout w ++ [MsgBlank])
     (http_log w ++ [GetArtifact url (username (glob w)) (token (glob w))])
     (restarted w)).
Proof.
  intros r D Hct Hcl. unfold download_mod.
  bstep (eq_refl : get_glob w = (Return (glob w), w)). rewrite D.
  match goal with |- context [bind (requests_get_download env url ?u ?t) _ w] =>
    bstep (eq_refl : requests_get_download env url u t w =
                     (Return (mods_portal env url u t),
                      with_http_log (http_log w ++ [GetArtifact url u t]) w))
  end.
  fold r. rewrite (bool_decide_eq_true_2 _ Hct). cbn [negb].
  match goal with |- context [bind (open_wb p) _ ?w1] =>
    bstep (eq_refl : open_wb p w1 =
                     (Return tt, with_mods_folder (<[p := []]> (mods_folder w1)) w1))
  end.
  wsimpl.
  destruct (content_length r) as [total|] eqn:El.
  - assert (total <> 0%Z) as Ht by congruence.
    match goal with |- context [bind (for_each _ _) _ ?w1] =>
      rewrite (bind_step _ _ _ _ _
                 (write_chunks_run p total (chunks r) Ht w1 [] (lookup_insert_eq _ _ _)))
    end.
    cbv beta iota. unfold print. wsimpl. now rewrite insert_insert_eq.
  - unfold bind at 1. unfold fd_write at 1. cbv beta iota. unfold print. wsimpl.
    rewrite lookup_insert_eq. cbn [default app]. now rewrite insert_insert_eq.
Qed.

Section Installing.

Context `{Hashlib} (env : Env).

(** X15: outside dry-run mode a download whose answer is a zip, with no
    [Content-Length] or one that is not zero, leaves at the file path
    exactly the body of the answer, whatever was there and whatever its
    digest; the other files, the manifest and [glob] are as before, and
    the request carried the configured user name and token. *)
Theorem download_writes_the_body (file_path url : string) (w : World) :
  let r := mods_portal env url (username (glob w)) (token (glob w)) in
  let w' := after (download_mod env file_path url) w in
  dry_run (glob w) = false ->
  content_type r = Some "application/zip" ->
  content_length r <> Some 0%Z ->
  outcome (download_mod env file_path url) w = Return tt /\
  mods_folder w' !! file_path = Some (content r) /\
  (forall q, q <> file_path -> mods_folder w' !! q = mods_folder w !! q) /\
  mod_list_json w' = mod_list_json w /\
  glob w' = glob w /\
  http_log w' = (http_log w ++ [GetArtifact url (username (glob w)) (token (glob w))])%list.
Proof.
  intros r w' D Hct Hcl. subst w'. unfold outcome, after.
  rewrite (download_mod_success_run env file_path url w D Hct Hcl). wsimpl.
  split_and!; try reflexivity.
  - apply lookup_insert_eq.
  - intros q Hq. now rewrite lookup_insert_ne.
Qed.

(** [update_mod] and [install_mod] when the download goes through. *)
Lemma update_mod_download_run (enabled_only : bool) (mod_ : ModEntry) (w : World)
    (infos : ModInfos) (selected : Release) (rest : list Release) :
  let r := mods_portal env (download_url selected) (username (glob w)) (token (glob w)) in
  dry_run (glob w) = false ->
  outcome (get_mod_infos env mod_) w = Return (Some infos) ->
  same_version_releases infos = selected :: rest ->
  enabled_only && negb (mi_enabled infos) = false ->
  file_is_current w (file_name selected) (sha1 selected) = false ->
  content_type r = Some "application/zip" ->
  content_length r <> Some 0%Z ->
  exists out,
    update_mod env enabled_only mod_ w =
    (Return tt,
     mkWorld (glob_has_to_reload (glob w))
       (<[file_name selected := content r]>
          (remove_all
             (map file_name
                (List.filter
                   (fun r => negb (String.eqb (file_name r) (file_name selected)))
                   (releases infos)))
             (mods_folder w)))
       (mod_list_json w) out
       (http_log w ++ [GetModInfos (name mod_);
                       GetArtifact (download_url selected) (username (glob w))
                                   (token (glob w))])
       (restarted w)).
Proof.
  intros r D Hi Hsv Hskip Hcur Hct Hcl. unfold update_mod. step_infos Hi.
  rewrite Hskip, Hsv. step. step. rewrite file_is_current_after_loop, Hcur, D.
  step.
  match goal with |- context [bind (download_mod env ?p ?u) _ ?w1] =>
    rewrite (bind_step _ _ _ _ _ (download_mod_success_run env p u w1 D Hct Hcl))
  end.
  cbv beta iota. rewrite set_has_to_reload_run. wsimpl.
  rewrite <- app_assoc. eexists. reflexivity.
Qed.

(** X16: outside dry-run mode, when the selected file is missing or
    does not have the published digest and the download goes through,
    the step of [update_mods] for that mod leaves the downloaded body
    under the selected file name (without checking its digest), has sent
    the metadata request and then the download request, and has raised the
    restart flag. *)
Theorem update_installs_selected (enabled_only : bool) (mod_ : ModEntry) (w : World)
    (infos : ModInfos) (selected : Release) :
  let r := mods_portal env (download_url selected) (username (glob w)) (token (glob w)) in
  let w' := after (update_mod env enabled_only mod_) w in
  dry_run (glob w) = false ->
  outcome (get_mod_infos env mod_) w = Return (Some infos) ->
  selected_release (same_version_releases infos) = Some selected ->
  enabled_only && negb (mi_enabled infos) = false ->
  file_is_current w (file_name selected) (sha1 selected) = false ->
  content_type r = Some "application/zip" ->
  content_length r <> Some 0%Z ->
  outcome (update_mod env enabled_only mod_) w = Return tt /\
  mods_folder w' !! file_name selected = Some (content r) /\
  has_to_reload (glob w') = true /\
  mod_list_json w' = mod_list_json w /\
  http_log w' =
    (http_log w ++ [GetModInfos (name mod_);
                    GetArtifact (download_url selected) (username (glob w))
                                (token (glob w))])%list.
Proof.
  intros r w' D Hi Hs Hskip Hcur Hct Hcl. subst w'.
  destruct (same_version_releases infos) as [|sel rest] eqn:Hsv; [discriminate|].
  injection Hs as ->.
  destruct (update_mod_download_run enabled_only mod_ w infos selected rest
              D Hi Hsv Hskip Hcur Hct Hcl) as [out E].
  unfold outcome, after. rewrite E. wsimpl. split_and!; try reflexivity.
  apply lookup_insert_eq.
Qed.

(** X17: outside dry-run mode, when the selected file is not current
    and the download goes through, [install_mod] returns [True], has
    appended the entry (enabled) to the manifest, left the downloaded body
    under the selected file name, every other file as it was, and raised
    the restart flag. *)
Theorem install_mod_installs (mod_name : string) (w : World)
    (infos : ModInfos) (selected : Release) :
  let r := mods_portal env (download_url selected) (username (glob w)) (token (glob w)) in
  let w' := after (install_mod env mod_name) w in
  dry_run (glob w) = false ->
  outcome (get_mod_infos env (mkMod mod_name true)) w = Return (Some infos) ->
  selected_release (same_version_releases infos) = Some selected ->
  file_is_current w (file_name selected) (sha1 selected) = false ->
  content_type r = Some "application/zip" ->
  content_length r <> Some 0%Z ->
  outcome (install_mod env mod_name) w = Return (Some true) /\
  mod_list_json w' = (mod_list_json w ++ [mkMod mod_name true])%list /\
  mods_folder w' !! file_name selected = Some (content r) /\
  (forall q, q <> file_name selected -> mods_folder w' !! q = mods_folder w !! q) /\
  has_to_reload (glob w') = true /\
  In (MsgInstalled mod_name (version selected) (info_json_factorio_version selected))
     (stdout w').
Proof.
  intros r w' D Hi Hs Hcur Hct Hcl. subst w'.
  destruct (same_version_releases infos) as [|sel rest] eqn:Hsv; [discriminate|].
  injection Hs as ->.
  assert (exists out,
             install_mod env mod_name w =
             (Return (Some true),
              mkWorld (glob_has_to_reload (glob w))
                (<[file_name selected := content r]> (mods_folder w))
                (mod_list_json w ++ [mkMod mod_name true])
                (out ++ [MsgBlank;
                         MsgInstalled mod_name (version selected)
                                      (info_json_factorio_version selected)])
                (http_log w ++ [GetModInfos mod_name;
                                GetArtifact (download_url selected) (username (glob w))
                                            (token (glob w))])
                (restarted w))) as [out E].
  { unfold install_mod. step. step_infos Hi. rewrite Hsv. step. step. rewrite D. step.
    match goal with |- context [file_is_current ?w1 _ _] =>
      change (file_is_current w1 (file_name selected) (sha1 selected))
        with (file_is_current w (file_name selected) (sha1 selected))
    end.
    rewrite Hcur. step.
    match goal with |- context [bind (download_mod env ?p ?u) _ ?w1] =>
      rewrite (bind_step _ _ _ _ _ (download_mod_success_run env p u w1 D Hct Hcl))
    end.
    cbv beta iota. step. step. unfold ret. wsimpl.
    rewrite <- !app_assoc. eexists. reflexivity. }
  unfold outcome, after. rewrite E. wsimpl. split_and!; try reflexivity.
  - apply lookup_insert_eq.
  - intros q Hq. now rewrite lookup_insert_ne.
  - rewrite in_app_iff. right. right. now left.
Qed.

End Installing.

(** ** Running an update again, disabled mods, an undetected host version *)

(** The outcome of [get_mod_infos] does not read the restart flag. *)
Lemma get_mod_infos_outcome_reload (env : Env) (m : ModEntry) (w w2 : World) :
  glob w2 = glob_has_to_reload (glob w) ->
  outcome (get_mod_infos env m) w2 = outcome (get_mod_infos env m) w.
Proof.
  intros G. destruct w as [g ? ? ? ? ?], w2 as [g2 ? ? ? ? ?].
  simpl in G. subst g2. destruct g as [v ? ? ? ? ? ? ? ? ? ? ?]. destruct v.
  all: unfold outcome, get_mod_infos, requests_get_api, filter_against, debug, bind,
         get_glob, print, ret, raise, glob_has_to_reload.
  all: run; reflexivity.
Qed.

Section Again.

Context `{Hashlib} (env : Env).

(** X18: when an update has downloaded a release whose body has the
    published digest, updating the same mod again right away returns after
    the metadata request: no second download, the mods folder and [glob]
    exactly as the first update left them. *)
Theorem update_twice_downloads_once (enabled_only : bool) (mod_ : ModEntry) (w : World)
    (infos : ModInfos) (selected : Release) :
  let r := mods_portal env (download_url selected) (username (glob w)) (token (glob w)) in
  let w1 := after (update_mod env enabled_only mod_) w in
  let w2 := after (update_mod env enabled_only mod_) w1 in
  dry_run (glob w) = false ->
  outcome (get_mod_infos env mod_) w = Return (Some infos) ->
  selected_release (same_version_releases infos) = Some selected ->
  enabled_only && negb (mi_enabled infos) = false ->
  file_is_current w (file_name selected) (sha1 selected) = false ->
  content_type r = Some "application/zip" ->
  content_length r <> Some 0%Z ->
  get_file_sha1 (content r) = sha1 selected ->
  outcome (update_mod env enabled_only mod_) w1 = Return tt /\
  mods_folder w2 = mods_folder w1 /\
  glob w2 = glob w1 /\
  mod_list_json w2 = mod_list_json w1 /\
  http_log w2 = (http_log w1 ++ [GetModInfos (name mod_)])%list.
Proof.
  intros r w1 w2 D Hi Hs Hskip Hcur Hct Hcl Hsha.
  destruct (same_version_releases infos) as [|sel rest] eqn:Hsv; [discriminate|].
  injection Hs as ->.
  destruct (update_mod_download_run env enabled_only mod_ w infos selected rest
              D Hi Hsv Hskip Hcur Hct Hcl) as [out E].
  fold r in E.
  assert (Ew1 : w1 = snd (update_mod env enabled_only mod_ w)) by reflexivity.
  rewrite E in Ew1. cbn [snd] in Ew1.
  assert (Hi1 : outcome (get_mod_infos env mod_) w1 = Return (Some infos)).
  { rewrite <- Hi. apply get_mod_infos_outcome_reload. now rewrite Ew1. }
  assert (Hcur1 : file_is_current w1 (file_name selected) (sha1 selected) = true).
  { unfold file_is_current. rewrite Ew1. wsimpl. rewrite lookup_insert_eq, Hsha.
    apply String.eqb_refl. }
  destruct (update_mod_current_run env enabled_only mod_ w1 infos selected rest
              Hi1 Hsv Hcur1) as [out2 E2].
  subst w2. unfold outcome, after. rewrite E2. wsimpl.
  split_and!; try reflexivity.
  rewrite Hskip. rewrite Ew1 at 1. cbn [glob]. unfold glob_has_to_reload at 1.
  cbn [dry_run]. rewrite D. cbn [orb].
  apply map_eq. intros q. rewrite lookup_remove_all.
  case_bool_decide as Hq; [|reflexivity].
  rewrite Ew1. wsimpl.
  assert (q <> file_name selected) as Hne.
  { intros ->. revert Hq. apply selected_not_in_delete_list. }
  rewrite lookup_insert_ne by congruence.
  rewrite lookup_remove_all. now rewrite bool_decide_eq_true_2.
Qed.

(** X19: under [--update-enabled-only] the step of [update_mods] for
    a mod that is disabled in the manifest sends the metadata request and
    does nothing else, however it ends: the mods folder (so the mod's
    release files, current or stale), the manifest, [glob] and the service
    are as before.  The step returns normally whenever [get_mod_infos]
    returns the mod's infos; otherwise it ends with the exception of
    [get_mod_infos] or with the [TypeError] of subscripting [None]. *)
Theorem update_skips_disabled (mod_ : ModEntry) (w : World) :
  let w' := after (update_mod env true mod_) w in
  enabled mod_ = false ->
  (mods_folder w' = mods_folder w /\
   mod_list_json w' = mod_list_json w /\
   glob w' = glob w /\
   restarted w' = restarted w /\
   http_log w' = (http_log w ++ [GetModInfos (name mod_)])%list) /\
  (forall infos,
      outcome (get_mod_infos env mod_) w = Return (Some infos) ->
      outcome (update_mod env true mod_) w = Return tt) /\
  (outcome (get_mod_infos env mod_) w = Return None ->
   outcome (update_mod env true mod_) w = Uncaught TypeError) /\
  (forall e,
      outcome (get_mod_infos env mod_) w = Uncaught e ->
      outcome (update_mod env true mod_) w = Uncaught e).
Proof.
  intros w' He. subst w'.
  assert (exists out,
             update_mod env true mod_ w =
             (match outcome (get_mod_infos env mod_) w with
              | Return (Some _) => Return tt
              | Return None => Uncaught TypeError
              | SystemExit c => SystemExit c
              | Uncaught e => Uncaught e
              end,
              mkWorld (glob w) (mods_folder w) (mod_list_json w) out
                (http_log w ++ [GetModInfos (name mod_)]) (restarted w))) as [out E].
  { destruct (outcome (get_mod_infos env mod_) w) as [[infos|]|c|e] eqn:Hi;
      unfold update_mod; step_infos Hi.
    - destruct (get_mod_infos_sound env mod_ w infos Hi) as (rels & _ & _ & Hen & _).
      rewrite Hen, He. cbn [negb andb]. step_last. eexists. reflexivity.
    - unfold raise. eexists. reflexivity.
    - eexists. reflexivity.
    - eexists. reflexivity. }
  unfold outcome, after in *. rewrite E. wsimpl.
  split; [now split_and!|]. split_and!.
  - now intros infos ->.
  - now intros ->.
  - now intros e ->.
Qed.

End Again.

(** X20: when no host version could be detected
    ([glob['factorio_version']] is [None]), a mod the portal knows matches
    no release without [--downgrade], whatever its releases; with
    [--downgrade] the first comparison against [None] raises [TypeError]
    as soon as the mod has a release. *)
Theorem undetected_version (env : Env) (mod_ : ModEntry) (w : World)
    (rels : list Release) :
  factorio_version (glob w) = None ->
  status_code (api_mods env (name mod_)) = 200%Z ->
  json_releases (api_mods env (name mod_)) = Some rels ->
  (should_downgrade (glob w) = false ->
   outcome (get_mod_infos env mod_) w =
   Return (Some (mkInfos (name mod_) (enabled mod_) (sorted_releases rels) []))) /\
  (should_downgrade (glob w) = true -> rels <> [] ->
   outcome (get_mod_infos env mod_) w = Uncaught TypeError).
Proof.
  intros Hv Hs Hj. split.
  - intros Hd. open_world w. simpl in *. subst. destruct v.
    all: unfold outcome, get_mod_infos, requests_get_api, filter_against, debug, bind,
           get_glob, print, ret.
    all: simpl; rewrite Hs, Hj; reflexivity.
  - intros Hd Hne. apply sorted_releases_nonempty in Hne.
    open_world w. simpl in *. subst. destruct v.
    all: unfold outcome, get_mod_infos, requests_get_api, filter_against, debug, bind,
           get_glob, print, ret, raise.
    all: simpl; rewrite Hs, Hj; simpl.
    all: destruct (sorted_releases rels); [congruence|reflexivity].
Qed.

(** ** The further properties on the sample data *)

Lemma list_mods_ends_the_run_witness :
  let w0 := start_world files_stale [base_entry; mkMod "m" true] in
  list_mods args_list = true /\
  manifest_only w0 (after (@main sample_hashlib sample_env 2 args_list) w0) /\
  forall a, outcome (@main sample_hashlib sample_env 2 args_list) w0 <> Return a.
Proof.
  intros w0. split; [reflexivity|].
  exact (@list_mods_ends_the_run sample_hashlib sample_env 2 args_list w0 eq_refl).
Defined.

Lemma load_config_accepts_witness :
  let w0 := start_world files_stale [base_entry] in
  let w' := after (load_config sample_env args_update) w0 in
  load_config sample_env args_update w0 = (Return true, w') /\
  factorio_path (glob w') = Some "/opt/factorio" /\
  username (glob w') = Some "user" /\
  token (glob w') = Some "tok" /\
  factorio_version (glob w') = Some (mkVersion [1; 0]).
Proof.
  intros w0 w'.
  assert (Hl : load_config sample_env args_update w0 = (Return true, w')) by reflexivity.
  destruct (load_config_accepts sample_env args_update w0 w' Hl)
    as (path & Hp & Epath & _ & _ & Hv & Hu & Ht & _).
  rewrite Epath in Hp, Hv.
  split; [exact Hl|]. split; [exact Hp|]. split; [exact Hu|]. split; [exact Ht|exact Hv].
Defined.

Lemma reload_needs_service_name_witness :
  let w0 := start_world files_stale [base_entry] in
  arg_should_reload args_reload_unnamed = true /\
  truthy (arg_service_name args_reload_unnamed) = false /\
  config_json sample_env = None /\
  outcome (@main sample_hashlib sample_env 2 args_reload_unnamed) w0 = SystemExit 2.
Proof.
  intros w0.
  assert (Hc : forall c, config_json sample_env = Some c -> cfg_service_name c = None)
    by (intros c Hc; vm_compute in Hc; discriminate Hc).
  assert (Hargc : 2%nat <> 1%nat) by lia.
  pose proof (@reload_needs_service_name sample_hashlib sample_env args_reload_unnamed w0
                (or_introl eq_refl) eq_refl Hc) as W.
  destruct W as (_ & _ & W).
  split; [reflexivity|]. split; [reflexivity|]. split; [reflexivity|].
  exact (W 2%nat Hargc).
Defined.

Lemma missing_git_ends_the_run_witness :
  let w0 := start_world files_stale [base_entry; mkMod "m" true] in
  outcome (load_config sample_env_no_git args_update) w0 = Return true /\
  disable_mod_manager_update args_update = false /\
  git_status sample_env_no_git = GitNotInstalled /\
  outcome (@main sample_hashlib sample_env_no_git 2 args_update) w0 = Uncaught OSError /\
  mods_folder (after (@main sample_hashlib sample_env_no_git 2 args_update) w0) = files_stale.
Proof.
  intros w0.
  assert (Hargc : 2%nat <> 1%nat) by lia.
  pose proof (@missing_git_ends_the_run sample_hashlib sample_env_no_git 2 args_update w0
                Hargc eq_refl eq_refl eq_refl) as W.
  destruct W as (W1 & W2 & _).
  split; [reflexivity|]. split; [reflexivity|]. split; [reflexivity|].
  split; [exact W1|exact W2].
Defined.

Lemma download_writes_the_body_witness :
  let w0 := sample_world false files_stale [base_entry] in
  let r := mods_portal sample_env "/download/m/2" (username (glob w0)) (token (glob w0)) in
  dry_run (glob w0) = false /\
  content_type r = Some "application/zip" /\
  content_length r <> Some 0%Z /\
  mods_folder (after (download_mod sample_env "m_2.0.0.zip" "/download/m/2") w0)
    !! "m_2.0.0.zip" = Some zip_new.
Proof.
  intros w0 r.
  assert (Hcl : content_length r <> Some 0%Z) by (vm_compute; discriminate).
  pose proof (download_writes_the_body sample_env "m_2.0.0.zip" "/download/m/2" w0
                eq_refl eq_refl Hcl) as W.
  cbv zeta in W. destruct W as (_ & W & _).
  split; [reflexivity|]. split; [reflexivity|]. split; [exact Hcl|exact W].
Defined.

Lemma update_installs_selected_witness :
  let w0 := sample_world false files_stale [base_entry; mkMod "m" true] in
  let r := mods_portal sample_env (download_url rel_new) (username (glob w0))
                       (token (glob w0)) in
  let w' := after (@update_mod sample_hashlib sample_env false (mkMod "m" true)) w0 in
  dry_run (glob w0) = false /\
  outcome (get_mod_infos sample_env (mkMod "m" true)) w0 = Return (Some infos_m) /\
  selected_release (same_version_releases infos_m) = Some rel_new /\
  @file_is_current sample_hashlib w0 (file_name rel_new) (sha1 rel_new) = false /\
  content_type r = Some "application/zip" /\
  content_length r <> Some 0%Z /\
  mods_folder w' !! "m_2.0.0.zip" = Some zip_new /\
  has_to_reload (glob w') = true.
Proof.
  intros w0 r w'.
  assert (Hcl : content_length r <> Some 0%Z) by (vm_compute; discriminate).
  pose proof (@update_installs_selected sample_hashlib sample_env false (mkMod "m" true)
                w0 infos_m rel_new eq_refl eq_refl eq_refl eq_refl eq_refl eq_refl Hcl) as W.
  cbv zeta in W. destruct W as (_ & W1 & W2 & _).
  split; [reflexivity|]. split; [reflexivity|]. split; [reflexivity|].
  split; [reflexivity|]. split; [reflexivity|]. split; [exact Hcl|].
  split; [exact W1|exact W2].
Defined.

Lemma install_mod_installs_witness :
  let w0 := sample_world false files_stale [base_entry] in
  let r := mods_portal sample_env (download_url rel_new) (username (glob w0))
                       (token (glob w0)) in
  let w' := after (@install_mod sample_hashlib sample_env "m") w0 in
  dry_run (glob w0) = false /\
  outcome (get_mod_infos sample_env (mkMod "m" true)) w0 = Return (Some infos_m) /\
  selected_release (same_version_releases infos_m) = Some rel_new /\
  @file_is_current sample_hashlib w0 (file_name rel_new) (sha1 rel_new) = false /\
  content_type r = Some "application/zip" /\
  content_length r <> Some 0%Z /\
  outcome (@install_mod sample_hashlib sample_env "m") w0 = Return (Some true) /\
  mod_list_json w' = [base_entry; mkMod "m" true] /\
  mods_folder w' !! "m_1.0.0.zip" = Some zip_old.
Proof.
  intros w0 r w'.
  assert (Hcl : content_length r <> Some 0%Z) by (vm_compute; discriminate).
  assert (Hq : "m_1.0.0.zip" <> file_name rel_new) by (vm_compute; discriminate).
  pose proof (@install_mod_installs sample_hashlib sample_env "m" w0 infos_m rel_new
                eq_refl eq_refl eq_refl eq_refl eq_refl Hcl) as W.
  cbv zeta in W. destruct W as (W1 & W2 & _ & W3 & _).
  split; [reflexivity|]. split; [reflexivity|]. split; [reflexivity|].
  split; [reflexivity|]. split; [reflexivity|]. split; [exact Hcl|].
  split; [exact W1|]. split; [exact W2|].
  exact (eq_trans (W3 "m_1.0.0.zip" Hq) eq_refl).
Defined.

Lemma update_twice_downloads_once_witness :
  let w0 := sample_world false files_stale [base_entry; mkMod "m" true] in
  let r := mods_portal sample_env (download_url rel_new) (username (glob w0))
                       (token (glob w0)) in
  let update := @update_mod sample_hashlib sample_env false (mkMod "m" true) in
  dry_run (glob w0) = false /\
  outcome (get_mod_infos sample_env (mkMod "m" true)) w0 = Return (Some infos_m) /\
  selected_release (same_version_releases infos_m) = Some rel_new /\
  @file_is_current sample_hashlib w0 (file_name rel_new) (sha1 rel_new) = false /\
  content_type r = Some "application/zip" /\
  content_length r <> Some 0%Z /\
  @get_file_sha1 sample_hashlib (content r) = sha1 rel_new /\
  mods_folder (after update (after update w0)) = mods_folder (after update w0) /\
  http_log (after update (after update w0)) =
    (http_log (after update w0) ++ [GetModInfos "m"])%list.
Proof.
  intros w0 r update.
  assert (Hcl : content_length r <> Some 0%Z) by (vm_compute; discriminate).
  pose proof (@update_twice_downloads_once sample_hashlib sample_env false (mkMod "m" true)
                w0 infos_m rel_new eq_refl eq_refl eq_refl eq_refl eq_refl eq_refl Hcl
                eq_refl) as W.
  cbv zeta in W. destruct W as (_ & W1 & _ & _ & W2).
  split; [reflexivity|]. split; [reflexivity|]. split; [reflexivity|].
  split; [reflexivity|]. split; [reflexivity|]. split; [exact Hcl|].
  split; [reflexivity|]. split; [exact W1|exact W2].
Defined.

(** The stale file of the disabled mod stays. *)
Lemma update_skips_disabled_witness :
  let w0 := sample_world false files_stale [base_entry; mod_m_disabled] in
  let w' := after (@update_mod sample_hashlib sample_env true mod_m_disabled) w0 in
  enabled mod_m_disabled = false /\
  mods_folder w' = files_stale /\
  http_log w' = [GetModInfos "m"] /\
  outcome (@update_mod sample_hashlib sample_env true mod_m_disabled) w0 = Return tt.
Proof.
  intros w0 w'.
  pose proof (@update_skips_disabled sample_hashlib sample_env mod_m_disabled w0
                eq_refl) as W.
  cbv zeta in W. destruct W as ((W1 & _ & _ & _ & W2) & W3 & _).
  split; [reflexivity|]. split; [exact W1|]. split; [exact W2|].
  exact (W3 _ eq_refl).
Defined.

(** With [--downgrade] and no detected host version the same step dies
    in [get_mod_infos], before the test on ['enabled'], and has still
    changed nothing. *)
Example update_skips_disabled_undetected :
  let w0 := mkWorld glob_no_version_downgrade files_stale [base_entry; mod_m_disabled]
                    [] [] [] in
  let update := @update_mod sample_hashlib sample_env true mod_m_disabled in
  outcome update w0 = Uncaught TypeError /\
  mods_folder (after update w0) = files_stale /\
  mod_list_json (after update w0) = [base_entry; mod_m_disabled] /\
  http_log (after update w0) = [GetModInfos "m"].
Proof. vm_compute. repeat split. Qed.

Lemma undetected_version_witness :
  let w0 := mkWorld glob_no_version files_stale [base_entry; mkMod "m" true] [] [] [] in
  factorio_version (glob w0) = None /\
  status_code (api_mods sample_env "m") = 200%Z /\
  json_releases (api_mods sample_env "m") = Some [rel_old; rel_new] /\
  outcome (get_mod_infos sample_env (mkMod "m" true)) w0 =
    Return (Some (mkInfos "m" true [rel_new; rel_old] [])).
Proof.
  intros w0.
  pose proof (undetected_version sample_env (mkMod "m" true) w0 [rel_old; rel_new]
                eq_refl eq_refl eq_refl) as W.
  destruct W as (W & _).
  split; [reflexivity|]. split; [reflexivity|]. split; [reflexivity|].
  exact (W eq_refl).
Defined.
